(** * Critters viewer: map view (main.js) and statistics page (stats.js)

    A shallow embedding of the client-side JavaScript of the critters
    world viewer, and the properties of its entity display cache, render
    loop, hit-tester and histogram binner.

    Conventions of the embedding.
    - A JavaScript number that holds a coordinate is an exact rational
      ([Q]); rounding, overflow and NaN of IEEE doubles are outside the
      model.  Identifiers, counts, bin sizes and thresholds are integers
      ([Z]), as [parseInt] delivers them.
    - The module-level [let] variables of main.js and the DOM nodes it
      writes are the fields of one [State] record; every handler is a
      function from [State] to [State].
    - A network request is an argument of the handler that awaits it: the
      response is either [Rejected] (the promise rejects, or the status is
      not ok and the fetch helper throws) or [Fulfilled].
    - The page is single-threaded. A handler is applied to the state in
      which its response arrives and runs to its end from there; what other
      handlers do while it waits is their own step, before it. *)

From Stdlib Require Import ZArith QArith Qabs Qround Reals Qreals Lra Lqa Lia.
From Stdlib Require Import Ascii String.
From stdpp Require Import gmap strings list pretty.

Local Open Scope Z_scope.

(** ** Data model *)

(** One entry of [critterData.critters], as the world service sends it. *)
Record Critter := mkCritter {
  c_id : Z;
  c_x : Q;
  c_y : Q;
  c_diet : string;
  c_health : Q;
  c_energy : Q;
  c_ai_state : string;
}.

(** The object stored under [critterDisplayData[id]]. *)
Record DisplayRecord := mkDisplay {
  currentX : Q;
  currentY : Q;
  targetX : Q;
  targetY : Q;
  critter : Critter;
}.

Record View := mkView { v_x : Z; v_y : Z; v_w : Z; v_h : Z }.

Record Tile := mkTile { t_terrain : string; t_height : Q; t_food : Q }.

(** Outcome of an awaited request. *)
Inductive Fetch (A : Type) : Type :=
  | Rejected (err : string)
  | Fulfilled (value : A).
Arguments Rejected {A} err.
Arguments Fulfilled {A} value.

(** The globals of main.js, the DOM nodes it writes, the console and the
    session history. [critterDisplayData] is a JavaScript object keyed by
    the decimal string of an integer id; [parseInt] of such a key is the id
    again, so the object is a finite map over [Z]. *)
Record State := mkState {
  currentTerrainData : option (list Tile);
  currentView : View;
  critterDisplayData : gmap Z DisplayRecord;
  selectedCritter : option Critter;
  statsContent : option Critter;      (* detail panel: the critter it renders *)
  eventLogFor : option Z;             (* event log last requested for this id *)
  seasonDisplay : option string;
  pushedUrls : list View;             (* history.pushState calls, newest first *)
  console : list string;              (* console.error calls, newest first *)
}.

Definition set_terrain (t : option (list Tile)) (s : State) : State :=
  mkState t (currentView s) (critterDisplayData s) (selectedCritter s)
          (statsContent s) (eventLogFor s) (seasonDisplay s) (pushedUrls s)
          (console s).

Definition set_view (v : View) (s : State) : State :=
  mkState (currentTerrainData s) v (critterDisplayData s) (selectedCritter s)
          (statsContent s) (eventLogFor s) (seasonDisplay s) (pushedUrls s)
          (console s).

Definition set_display (d : gmap Z DisplayRecord) (s : State) : State :=
  mkState (currentTerrainData s) (currentView s) d (selectedCritter s)
          (statsContent s) (eventLogFor s) (seasonDisplay s) (pushedUrls s)
          (console s).

Definition set_selected (c : option Critter) (s : State) : State :=
  mkState (currentTerrainData s) (currentView s) (critterDisplayData s) c
          (statsContent s) (eventLogFor s) (seasonDisplay s) (pushedUrls s)
          (console s).

Definition set_panel (p : option Critter) (e : option Z) (s : State) : State :=
  mkState (currentTerrainData s) (currentView s) (critterDisplayData s)
          (selectedCritter s) p e (seasonDisplay s) (pushedUrls s) (console s).

Definition set_season (n : option string) (s : State) : State :=
  mkState (currentTerrainData s) (currentView s) (critterDisplayData s)
          (selectedCritter s) (statsContent s) (eventLogFor s) n
          (pushedUrls s) (console s).

Definition push_url (v : View) (s : State) : State :=
  mkState (currentTerrainData s) (currentView s) (critterDisplayData s)
          (selectedCritter s) (statsContent s) (eventLogFor s)
          (seasonDisplay s) (v :: pushedUrls s) (console s).

Definition console_error (msg : string) (s : State) : State :=
  mkState (currentTerrainData s) (currentView s) (critterDisplayData s)
          (selectedCritter s) (statsContent s) (eventLogFor s)
          (seasonDisplay s) (pushedUrls s) (msg :: console s).

(** ** Entity display cache: handleManualUpdate and handleLiveUpdate *)

(** The object literal of the "New critter" branch. *)
Definition spawn (c : Critter) : DisplayRecord :=
  {| currentX := c_x c; currentY := c_y c;
     targetX := c_x c; targetY := c_y c; critter := c |}.

(** The three assignments of the branch that finds the id in the cache. *)
Definition retarget (c : Critter) (r : DisplayRecord) : DisplayRecord :=
  {| currentX := currentX r; currentY := currentY r;
     targetX := c_x c; targetY := c_y c; critter := c |}.

(** [new Set(critterData.critters.map((c) => c.id))] *)
Definition liveCritterIds (critters : list Critter) : gset Z :=
  list_to_set (c_id <$> critters).

(** The removal loop: every key whose id is not live is deleted. *)
Definition removeStale (live : gset Z) (data : gmap Z DisplayRecord)
  : gmap Z DisplayRecord :=
  filter (λ kv, kv.1 ∈ live) data.

(** Body of the loop over the fetched critters. *)
Definition upsert (data : gmap Z DisplayRecord) (c : Critter)
  : gmap Z DisplayRecord :=
  match data !! c_id c with
  | Some r => <[c_id c := retarget c r]> data
  | None => <[c_id c := spawn c]> data
  end.

(** What the loop body does to the entry of the critter's own id. *)
Definition upsertAt (entry : option DisplayRecord) (c : Critter)
  : option DisplayRecord :=
  Some (match entry with Some r => retarget c r | None => spawn c end).

(** A cache that already mirrors the fetched list: its keys are the fetched
    ids, and each record holds the last fetched critter of its id as
    snapshot and that critter's position as target. *)
Definition inSync (critters : list Critter) (data : gmap Z DisplayRecord)
  : Prop :=
  dom data = liveCritterIds critters
  ∧ ∀ k r, data !! k = Some r →
      ∃ c, last (filter (λ c, c_id c = k) critters) = Some c
           ∧ targetX r = c_x c ∧ targetY r = c_y c ∧ critter r = c.

(** The two loops of the [try] block of handleLiveUpdate. *)
Definition reconcile (critters : list Critter) (data : gmap Z DisplayRecord)
  : gmap Z DisplayRecord :=
  foldl upsert (removeStale (liveCritterIds critters) data) critters.

(** updateSeasonDisplay: its own request, its own [try]/[catch]. *)
Definition updateSeasonDisplay (resp : Fetch string) (s : State) : State :=
  match resp with
  | Fulfilled name => set_season (Some name) s
  | Rejected err => console_error err s
  end.

(** handleLiveUpdate of the current map page: nothing happens before the
    map is loaded; otherwise the critters are fetched and reconciled, or the
    error is logged, and the season display is refreshed. *)
Definition handleLiveUpdate
    (resp : Fetch (list Critter)) (season : Fetch string) (s : State) : State :=
  match currentTerrainData s with
  | None => s
  | Some _ =>
      let s1 :=
        match resp with
        | Fulfilled critters =>
            set_display (reconcile critters (critterDisplayData s)) s
        | Rejected err => console_error err s
        end in
      updateSeasonDisplay season s1
  end.

(** [critterDisplayData = {}] and the loop that fills it. *)
Definition seed (critters : list Critter) : gmap Z DisplayRecord :=
  foldl (λ data c, <[c_id c := spawn c]> data) ∅ critters.

(** handleManualUpdate: the view and the URL are written first; fetchTerrain
    assigns [currentTerrainData] only after a successful response; the
    [catch] logs whichever request failed. *)
Definition handleManualUpdate
    (input : View) (terrain : Fetch (list Tile)) (resp : Fetch (list Critter))
    (s : State) : State :=
  let s1 := push_url input (set_view input s) in
  match terrain with
  | Rejected err => console_error err s1
  | Fulfilled tiles =>
      let s2 := set_terrain (Some tiles) s1 in
      match resp with
      | Rejected err => console_error err s2
      | Fulfilled critters => set_display (seed critters) s2
      end
  end.

(** ** Render loop: animationLoop *)

(** One frame for one record:
    [critter.currentX += (critter.targetX - critter.currentX) * 0.1]
    and the same for Y. *)
Definition ease (current target : Q) : Q :=
  (current + (target - current) * (1 # 10))%Q.

Definition advance (r : DisplayRecord) : DisplayRecord :=
  {| currentX := ease (currentX r) (targetX r);
     currentY := ease (currentY r) (targetY r);
     targetX := targetX r; targetY := targetY r; critter := critter r |}.

(** updateStatsPanel: the selected critter is rendered, or the default
    message is shown and image and event log are emptied. *)
Definition updateStatsPanel (s : State) : State :=
  match selectedCritter s with
  | Some c => set_panel (Some c) (eventLogFor s) s
  | None => set_panel None None s
  end.

(** fetchAndDisplayEvents: requests the log of the selected critter. *)
Definition fetchAndDisplayEvents (s : State) : State :=
  match selectedCritter s with
  | Some c => set_panel (statsContent s) (Some (c_id c)) s
  | None => set_panel (statsContent s) None s
  end.

(** One frame. Painting the canvas writes no variable of the page and is
    left out; the loop over the cache advances every record once, and the
    "Update live stats" block follows it. *)
Definition animationLoop (s : State) : State :=
  let s1 := set_display (advance <$> critterDisplayData s) s in
  match selectedCritter s1 with
  | None => s1
  | Some sel =>
      match critterDisplayData s1 !! c_id sel with
      | None => s1
      | Some latestData =>
          fetchAndDisplayEvents
            (updateStatsPanel (set_selected (Some (critter latestData)) s1))
      end
  end.




(** ** The earlier map page (web_server/static/js/main.js)

    Its handleLiveUpdate and animationLoop are those above without the
    season display and without the event log. *)
Module MainJs.

Definition handleLiveUpdate (resp : Fetch (list Critter)) (s : State) : State :=
  match currentTerrainData s with
  | None => s
  | Some _ =>
      match resp with
      | Fulfilled critters =>
          set_display (reconcile critters (critterDisplayData s)) s
      | Rejected err => console_error err s
      end
  end.

Definition updateStatsPanel (s : State) : State :=
  set_panel (selectedCritter s) (eventLogFor s) s.

Definition animationLoop (s : State) : State :=
  let s1 := set_display (advance <$> critterDisplayData s) s in
  match selectedCritter s1 with
  | None => s1
  | Some sel =>
      match critterDisplayData s1 !! c_id sel with
      | None => s1
      | Some latestData =>
          updateStatsPanel (set_selected (Some (critter latestData)) s1)
      end
  end.

End MainJs.

(** ** Hit-tester: handleCanvasClick *)

Record Canvas := mkCanvas {
  cv_width : Q; cv_height : Q;        (* canvas.width, canvas.height *)
  rect_left : Q; rect_top : Q;        (* canvas.getBoundingClientRect() *)
}.

Record MouseEvent := mkClick { clientX : Q; clientY : Q }.

Definition CRITTER_DRAW_RADIUS : Q := 3.
Definition CRITTER_CLICK_TOLERANCE : Q := 6.

Definition Qltb (a b : Q) : bool :=
  (Qnum a * Zpos (Qden b) <? Qnum b * Zpos (Qden a))%Z.

Definition tileWidth (cv : Canvas) (v : View) : Q := (cv_width cv / inject_Z (v_w v))%Q.
Definition tileHeight (cv : Canvas) (v : View) : Q := (cv_height cv / inject_Z (v_h v))%Q.
Definition startX (v : View) : Q := (inject_Z (v_x v) - inject_Z (v_w v) / 2)%Q.
Definition startY (v : View) : Q := (inject_Z (v_y v) - inject_Z (v_h v) / 2)%Q.

(** Pixel position of a record's current (interpolated) position. *)
Definition critterCanvasX (cv : Canvas) (v : View) (r : DisplayRecord) : Q :=
  ((currentX r - startX v) * tileWidth cv v + tileWidth cv v / 2)%Q.
Definition critterCanvasY (cv : Canvas) (v : View) (r : DisplayRecord) : Q :=
  ((currentY r - startY v) * tileHeight cv v + tileHeight cv v / 2)%Q.

(** The argument of [Math.sqrt]: the square of the pixel distance between
    the record and the pointer. *)
Definition distanceSq (cv : Canvas) (v : View) (mouseX mouseY : Q)
    (r : DisplayRecord) : Q :=
  ((critterCanvasX cv v r - mouseX) ^ 2 + (critterCanvasY cv v r - mouseY) ^ 2)%Q.

(** Loop state: [closestCritter] and [minDistance]. A distance is held by
    its square: [Math.sqrt] is increasing on the non-negative numbers, so
    [distance < bound] is [distance^2 < bound^2] for a bound that is not
    negative ([sqrt_lt_iff] and [sqrt_lt_bound_iff] below); [None] is
    [Infinity]. *)
Definition HitAcc : Type := option Critter * option Q.

Definition belowMin (dsq : Q) (minSq : option Q) : bool :=
  match minSq with
  | None => true
  | Some m => Qltb dsq m
  end.

Definition hitStep (cv : Canvas) (v : View) (mouseX mouseY : Q)
    (acc : HitAcc) (r : DisplayRecord) : HitAcc :=
  let dsq := distanceSq cv v mouseX mouseY r in
  if Qltb dsq ((CRITTER_DRAW_RADIUS + CRITTER_CLICK_TOLERANCE) ^ 2)
     && belowMin dsq acc.2
  then (Some (critter r), Some dsq)
  else acc.

(** The scan over a list of records, in the order of the list. *)
Definition hitScan (cv : Canvas) (v : View) (mouseX mouseY : Q)
    (records : list DisplayRecord) : HitAcc :=
  foldl (hitStep cv v mouseX mouseY) (None, None) records.

(** The click handler. The enumeration of the map stands for the order in
    which [for ... in] visits the keys; the order matters only between
    records at equal distance. *)
Definition handleCanvasClick (cv : Canvas) (event : MouseEvent) (s : State)
  : State :=
  match currentTerrainData s with
  | None => s
  | Some _ =>
      let mouseX := (clientX event - rect_left cv)%Q in
      let mouseY := (clientY event - rect_top cv)%Q in
      let closestCritter :=
        (hitScan cv (currentView s) mouseX mouseY
                 ((map_to_list (critterDisplayData s)).*2)).1 in
      fetchAndDisplayEvents (updateStatsPanel (set_selected closestCritter s))
  end.

(** The Euclidean distance in pixels between a record's current position
    and the pointer, as a real number: what [Math.sqrt] returns in the
    loop. *)
Definition distance (cv : Canvas) (v : View) (mouseX mouseY : Q)
    (r : DisplayRecord) : R :=
  sqrt (Q2R (distanceSq cv v mouseX mouseY r)).

Definition hitRadius : Q := (CRITTER_DRAW_RADIUS + CRITTER_CLICK_TOLERANCE)%Q.

(** ** Statistics page: numbers read from strings *)

(** What [parseInt] returns: an integer, or [None] for NaN. *)
Definition Num : Type := option Z.

Definition charCode (a : ascii) : Z := Z.of_N (N_of_ascii a).

(** Value of a character as a digit of a radix up to 16. *)
Definition digitValue (radix : Z) (a : ascii) : option Z :=
  let n := charCode a in
  let d :=
    if (48 <=? n) && (n <=? 57) then Some (n - 48)
    else if (97 <=? n) && (n <=? 102) then Some (n - 87)
    else if (65 <=? n) && (n <=? 70) then Some (n - 55)
    else None in
  match d with
  | Some k => if k <? radix then Some k else None
  | None => None
  end.

(** Tab, line feed, vertical tab, form feed, carriage return, space. *)
Definition isWhiteSpace (a : ascii) : bool :=
  let n := charCode a in ((9 <=? n) && (n <=? 13)) || (n =? 32).

Fixpoint skipWhiteSpace (s : string) : string :=
  match s with
  | String a rest => if isWhiteSpace a then skipWhiteSpace rest else s
  | EmptyString => s
  end.

(** Longest prefix of digits, read in the radix; [None] when it is empty. *)
Fixpoint parseDigits (radix : Z) (acc : Num) (s : string) : Num :=
  match s with
  | String a rest =>
      match digitValue radix a with
      | Some d => parseDigits radix (Some (radix * default 0 acc + d)) rest
      | None => acc
      end
  | EmptyString => acc
  end.

Definition stripSign (s : string) : Z * string :=
  match s with
  | String "-" rest => (-1, rest)
  | String "+" rest => (1, rest)
  | _ => (1, s)
  end.

Definition stripHexPrefix (s : string) : Z * string :=
  match s with
  | String "0" (String "x" rest) => (16, rest)
  | String "0" (String "X" rest) => (16, rest)
  | _ => (10, s)
  end.

(** [parseInt(s)] with no radix argument. *)
Definition parseInt (s : string) : Num :=
  let '(sign, s1) := stripSign (skipWhiteSpace s) in
  let '(radix, s2) := stripHexPrefix s1 in
  match parseDigits radix None s2 with
  | Some v => Some (sign * v)
  | None => None
  end.

(** A JavaScript number as [ToNumber] of a string can give it: NaN, an
    infinity, or a finite value, held exactly. *)
Inductive JsNumber :=
  | NaN
  | NegInfinity
  | Finite (q : Q)
  | PosInfinity.

(** The digits at the front of [s] in the radix: their value, their
    count, and the rest of the string. *)
Fixpoint takeDigits (radix : Z) (value : Z) (count : nat) (s : string)
  : Z * nat * string :=
  match s with
  | String a rest =>
      match digitValue radix a with
      | Some d => takeDigits radix (radix * value + d) (S count) rest
      | None => (value, count, s)
      end
  | EmptyString => (value, count, s)
  end.

Fixpoint trimEnd (s : string) : string :=
  match s with
  | String a rest =>
      match trimEnd rest with
      | EmptyString => if isWhiteSpace a then EmptyString else String a EmptyString
      | rest' => String a rest'
      end
  | EmptyString => EmptyString
  end.

(** [mantissa * 10^exponent] *)
Definition scale10 (mantissa : Q) (exponent : Z) : Q :=
  if 0 <=? exponent then (mantissa * inject_Z (10 ^ exponent))%Q
  else (mantissa / inject_Z (10 ^ (- exponent)))%Q.

(** The optional exponent part, which must end the literal. *)
Definition withExponent (mantissa : Q) (s : string) : JsNumber :=
  match s with
  | EmptyString => Finite mantissa
  | String a rest =>
      if Ascii.eqb a "e" || Ascii.eqb a "E" then
        let '(sign, digits) := stripSign rest in
        match takeDigits 10 0 0 digits with
        | (_, O, _) => NaN
        | (e, _, EmptyString) => Finite (scale10 mantissa (sign * e))
        | _ => NaN
        end
      else NaN
  end.

(** StrUnsignedDecimalLiteral: [Infinity], or digits with an optional
    fraction and an optional exponent; at least one digit before the
    exponent. *)
Definition unsignedDecimal (s : string) : JsNumber :=
  if String.eqb s "Infinity" then PosInfinity
  else
    let '(int, n1, r1) := takeDigits 10 0 0 s in
    match r1 with
    | String "." r2 =>
        let '(frac, n2, r3) := takeDigits 10 0 0 r2 in
        match n1, n2 with
        | O, O => NaN
        | _, _ =>
            withExponent
              (inject_Z int + inject_Z frac / inject_Z (10 ^ Z.of_nat n2))%Q r3
        end
    | _ =>
        match n1 with
        | O => NaN
        | _ => withExponent (inject_Z int) r1
        end
    end.

(** NonDecimalIntegerLiteral: a radix prefix and digits, no sign. *)
Definition nonDecimalInteger (s : string) : option JsNumber :=
  match s with
  | String "0" (String p digits) =>
      let radix :=
        if Ascii.eqb p "x" || Ascii.eqb p "X" then Some 16
        else if Ascii.eqb p "o" || Ascii.eqb p "O" then Some 8
        else if Ascii.eqb p "b" || Ascii.eqb p "B" then Some 2
        else None in
      match radix with
      | Some rdx =>
          Some match takeDigits rdx 0 0 digits with
               | (_, O, _) => NaN
               | (value, _, EmptyString) => Finite (inject_Z value)
               | _ => NaN
               end
      | None => None
      end
  | _ => None
  end.

Definition negate (n : JsNumber) : JsNumber :=
  match n with
  | NaN => NaN
  | NegInfinity => PosInfinity
  | Finite q => Finite (- q)
  | PosInfinity => NegInfinity
  end.

(** The conversion a relational operator applies to a string operand
    (StringToNumber): white space around the literal is dropped, the empty
    string is 0, and a string that is not a numeric literal as a whole,
    such as a bin label with its ["-"] between two bounds, is NaN. *)
Definition toNumber (s : string) : JsNumber :=
  match trimEnd (skipWhiteSpace s) with
  | EmptyString => Finite 0
  | String "-" rest => negate (unsignedDecimal rest)
  | String "+" rest => unsignedDecimal rest
  | literal =>
      match nonDecimalInteger literal with
      | Some n => n
      | None => unsignedDecimal literal
      end
  end.

(** [a <= b] and [a >= b] on numbers: false when an operand is NaN. *)
Definition numLe (a : Num) (b : Z) : bool :=
  match a with Some v => v <=? b | None => false end.
Definition numGe (a : Num) (b : Z) : bool :=
  match a with Some v => b <=? v | None => false end.

(** [a <= b] for a converted string and an integer. *)
Definition jsLe (a : JsNumber) (b : Z) : bool :=
  match a with
  | NaN => false
  | NegInfinity => true
  | Finite q => Qle_bool q (inject_Z b)
  | PosInfinity => false
  end.

(** ** Statistics page: createHistogramData *)

Record Histogram := mkHistogram { labels : list string; data : list Z }.

(** The template literal [`${binStart}-${binEnd}`]. *)
Definition binLabel (binStart binEnd : Z) : string :=
  pretty binStart +:+ "-" +:+ pretty binEnd.

(** [for (let i = 0; i < maxVal; i += binSize)], started at [i]; [fuel]
    bounds the number of iterations. *)
Fixpoint pushBins (fuel : nat) (i binSize maxVal : Z) (h : Histogram)
  : Histogram :=
  match fuel with
  | O => h
  | S fuel' =>
      if i <? maxVal
      then pushBins fuel' (i + binSize) binSize maxVal
             {| labels := labels h ++ [binLabel i (i + binSize - 1)];
                data := data h ++ [0] |}
      else h
  end.

(** Body of the loop over [Object.entries(rawData)]. An index that is NaN
    fails the comparison with [data.length]; a negative index passes it,
    and the assignment then writes the property of that name on the array
    object and changes no element. *)
Definition countEntry (binSize : Z) (data : list Z) (entry : string * Z)
  : list Z :=
  match parseInt entry.1 with
  | None => data
  | Some value =>
      let binIndex := value / binSize in
      if binIndex <? Z.of_nat (length data)
      then if 0 <=? binIndex
           then alter (λ n, n + entry.2) (Z.to_nat binIndex) data
           else data
      else data
  end.

(** [rawData] is given by its entries, in the order of [Object.entries].
    With [binSize >= 1] the first loop ends after at most [maxVal] rounds. *)
Definition createHistogramData (rawData : list (string * Z)) (binSize maxVal : Z)
  : Histogram :=
  if binSize <=? 0 then {| labels := []; data := [] |}
  else
    let h := pushBins (Z.to_nat maxVal) 0 binSize maxVal
                      {| labels := []; data := [] |} in
    {| labels := labels h; data := foldl (countEntry binSize) (data h) rawData |}.

Definition sumZ (l : list Z) : Z := foldr Z.add 0 l.

(** Number of bins the first loop makes. *)
Definition binCount (binSize maxVal : Z) : Z :=
  Z.max 0 ((maxVal + binSize - 1) / binSize).

(** Sum of the counts whose key parses to a value in [[0, bound)]. *)
Definition countedBelow (bound : Z) (rawData : list (string * Z)) : Z :=
  sumZ (map (λ entry : string * Z,
               match parseInt entry.1 with
               | Some value =>
                   if (0 <=? value) && (value <? bound) then entry.2 else 0
               | None => 0
               end) rawData).

(** ** Statistics page: threshold colouring *)

(** [okColor], [warningColor], [criticalColor]. *)
Inductive Band := GOOD | WARNING | CRITICAL.

(** [label.split("-")[0]]: the text before the first ["-"]. *)
Fixpoint splitHead (s : string) : string :=
  match s with
  | String a rest =>
      if Ascii.eqb a "-" then EmptyString else String a (splitHead rest)
  | EmptyString => EmptyString
  end.

(** The branches of the colour callback of drawDistributionChart. *)
Definition classify (lowIsBad : bool) (criticalThreshold warningThreshold : Z)
    (lowerBound : Num) : Band :=
  if lowIsBad then
    if numLe lowerBound criticalThreshold then CRITICAL
    else if numLe lowerBound warningThreshold then WARNING
    else GOOD
  else
    if numGe lowerBound criticalThreshold then CRITICAL
    else if numGe lowerBound warningThreshold then WARNING
    else GOOD.

(** The colour callback of drawDistributionChart, applied to one label. *)
Definition distributionColor (lowIsBad : bool)
    (criticalThreshold warningThreshold : Z) (label : string) : Band :=
  classify lowIsBad criticalThreshold warningThreshold
           (parseInt (splitHead label)).

(** The [backgroundColor] callback of the per-species energy chart of
    fetchAndDrawHistoryCharts: it compares the label itself. *)
Definition energyBackgroundColor (CRITICAL_ENERGY ENERGY_TO_START_RESTING : Z)
    (label : string) : Band :=
  if jsLe (toNumber label) CRITICAL_ENERGY then CRITICAL
  else if jsLe (toNumber label) ENERGY_TO_START_RESTING then WARNING
  else GOOD.

(** The energy chart of one species: bins of width 10 up to 101, each
    with its colour. *)
Definition energyChartBars (CRITICAL_ENERGY ENERGY_TO_START_RESTING : Z)
    (distribution : list (string * Z)) : list (string * Z * Band) :=
  let hist := createHistogramData distribution 10 101 in
  zip (zip (labels hist) (data hist))
      (map (energyBackgroundColor CRITICAL_ENERGY ENERGY_TO_START_RESTING)
           (labels hist)).

(** ** Sample data *)

Definition herbivore (id : Z) (x y : Q) : Critter :=
  mkCritter id x y "HERBIVORE" 10 50 "WANDERING".

Definition sampleView : View := mkView 50 50 20 20.

(** An 800 x 800 canvas at the page origin: tiles of 40 x 40 pixels. *)
Definition sampleCanvas : Canvas := mkCanvas 800 800 0 0.

(** Critters 1 and 2 are on display; critter 2 is selected and on its way
    from 50 to 52. *)
Definition sampleState : State :=
  {| currentTerrainData := Some (replicate 400 (mkTile "GRASS" (1 # 2) 5));
     currentView := sampleView;
     critterDisplayData :=
       <[1 := spawn (herbivore 1 45 45)]>
         (<[2 := mkDisplay 50 50 52 50 (herbivore 2 52 50)]> ∅);
     selectedCritter := Some (herbivore 2 52 50);
     statsContent := Some (herbivore 2 52 50);
     eventLogFor := Some 2;
     seasonDisplay := None;
     pushedUrls := [];
     console := [] |}.

(** ** The page as a machine of events

    The listeners that the map page registers: the draw button and the
    load event run handleManualUpdate, the interval timer runs
    handleLiveUpdate, a click on the canvas runs handleCanvasClick and the
    animation frame runs animationLoop. *)
Inductive Event :=
  | ManualUpdate (input : View) (terrain : Fetch (list Tile))
                 (resp : Fetch (list Critter))
  | LiveUpdate (resp : Fetch (list Critter)) (season : Fetch string)
  | CanvasClick (cv : Canvas) (event : MouseEvent)
  | Frame.

Definition handle (e : Event) (s : State) : State :=
  match e with
  | ManualUpdate input terrain resp => handleManualUpdate input terrain resp s
  | LiveUpdate resp season => handleLiveUpdate resp season s
  | CanvasClick cv event => handleCanvasClick cv event s
  | Frame => animationLoop s
  end.

Definition run (events : list Event) (s : State) : State :=
  foldl (λ s e, handle e s) s events.

Definition isClick (e : Event) : bool :=
  match e with CanvasClick _ _ => true | _ => false end.

(** The variables of the page as the script leaves them before the first
    event, with the view read from the input fields. *)
Definition initialState (view : View) : State :=
  {| currentTerrainData := None;
     currentView := view;
     critterDisplayData := ∅;
     selectedCritter := None;
     statsContent := None;
     eventLogFor := None;
     seasonDisplay := None;
     pushedUrls := [];
     console := [] |}.

(** Every record is stored under the id of its own snapshot. *)
Definition wellKeyed (data : gmap Z DisplayRecord) : Prop :=
  ∀ k r, data !! k = Some r → c_id (critter r) = k.

(** A record that has arrived: its current position is its target. *)
Definition atTarget (r : DisplayRecord) : Prop :=
  (currentX r == targetX r)%Q ∧ (currentY r == targetY r)%Q.

(** Before the map is loaded there is nothing on display and nothing
    selected. *)
Definition blankUntilLoaded (s : State) : Prop :=
  is_Some (currentTerrainData s)
  ∨ (critterDisplayData s = ∅ ∧ selectedCritter s = None).

(** The detail panel shows the selection, and the event log is that of
    the selected critter. *)
Definition panelShowsSelection (s : State) : Prop :=
  statsContent s = selectedCritter s
  ∧ eventLogFor s = c_id <$> selectedCritter s.


(** The events that fetch nothing: a frame and a click on the canvas. *)
Definition isLocal (e : Event) : bool :=
  match e with
  | Frame | CanvasClick _ _ => true
  | ManualUpdate _ _ _ | LiveUpdate _ _ => false
  end.

(** The views of the manual updates among the events, newest first. *)
Definition manualInputs (events : list Event) : list View :=
  foldl (λ inputs e,
           match e with
           | ManualUpdate input _ _ => input :: inputs
           | _ => inputs
           end) [] events.

(** ** Statistics page: what a bin holds, and the age chart *)

(** Sum of the counts whose key parses to a value in [[low, high]]. *)
Definition countedIn (low high : Z) (rawData : list (string * Z)) : Z :=
  sumZ (map (λ entry : string * Z,
               match parseInt entry.1 with
               | Some value =>
                   if (low <=? value) && (value <=? high) then entry.2 else 0
               | None => 0
               end) rawData).

(** [Math.max(...numbers)] of a list that is not empty: NaN when a number
    is NaN. *)
Definition mathMax (first : Num) (others : list Num) : Num :=
  foldl (λ acc n, a ← acc; b ← n; Some (Z.max a b)) first others.

(** [maxAge] of fetchAndDrawHistoryCharts: the highest key of both age
    distributions, or 100 when there is no key. *)
Definition maxAge (allAgeKeys : list string) : Num :=
  match allAgeKeys with
  | [] => Some 100
  | k :: keys => mathMax (parseInt k) (parseInt <$> keys)
  end.

(** [createHistogramData(distribution, Math.floor(maxAge / 50), maxAge)].
    With [maxAge] NaN the bin size is NaN too: it is not [<= 0], the first
    loop makes no bin as [0 < NaN] is false, and no index is below the
    length 0. *)
Definition ageHistogram (distribution : list (string * Z))
    (allAgeKeys : list string) : Histogram :=
  match maxAge allAgeKeys with
  | Some oldest => createHistogramData distribution (oldest / 50) oldest
  | None => {| labels := []; data := [] |}
  end.

(** ** Keys and labels as strings *)

(** The test of the removal loop of handleLiveUpdate on a key of the
    cache, [!liveCritterIds.has(parseInt(id))]: the set holds the fetched
    ids, which are integers, so it never has NaN. *)
Definition staleKey (liveIds : gset Z) (id : string) : bool :=
  match parseInt id with
  | Some n => bool_decide (n ∉ liveIds)
  | None => true
  end.

(** The value of a string of decimal digits read after [acc], or [None]
    when a character is no decimal digit. *)
Fixpoint digitsZ (acc : Z) (ds : string) : option Z :=
  match ds with
  | String a rest =>
      match digitValue 10 a with
      | Some d => digitsZ (10 * acc + d) rest
      | None => None
      end
  | EmptyString => Some acc
  end.

Fixpoint noWhiteSpace (s : string) : bool :=
  match s with
  | String a rest => negb (isWhiteSpace a) && noWhiteSpace rest
  | EmptyString => true
  end.

(** [a >= b] for a converted string and an integer. *)
Definition jsGe (a : JsNumber) (b : Z) : bool :=
  match a with
  | NaN => false
  | NegInfinity => false
  | Finite q => Qle_bool (inject_Z b) q
  | PosInfinity => true
  end.

(** The [backgroundColor] callback of the per-species hunger chart, and,
    with the thirst constants, of the thirst chart. *)
Definition hungerBackgroundColor (CRITICAL_HUNGER HUNGER_TO_START_FORAGING : Z)
    (label : string) : Band :=
  if jsGe (toNumber label) CRITICAL_HUNGER then CRITICAL
  else if jsGe (toNumber label) HUNGER_TO_START_FORAGING then WARNING
  else GOOD.

(** ** Terrain colours: shadeColor, interpolateColor and drawTerrain

    A colour is the string the code handles. The numbers of this part can
    be NaN or infinite (a colour field that is no hexadecimal number, a
    division by a missing DEFAULT_GRASS_FOOD), so they are [JsNumber]s; a
    finite one is an exact rational and there is no negative zero. *)

(** [s.substring(first, last)] for [first <= last]: the characters from
    index [first] up to, not including, index [last], as far as [s] has
    them. *)
Definition substringBetween (first last : nat) (s : string) : string :=
  String.substring first (last - first) s.

(** [parseInt(s, 16)]: white space and a sign are skipped, then an
    optional [0x], and the longest prefix of hexadecimal digits is read;
    NaN when there is none. *)
Definition parseInt16 (s : string) : Num :=
  let '(sign, s1) := stripSign (skipWhiteSpace s) in
  match parseDigits 16 None (snd (stripHexPrefix s1)) with
  | Some v => Some (sign * v)
  | None => None
  end.

Definition ofNum (n : Num) : JsNumber :=
  match n with
  | Some v => Finite (inject_Z v)
  | None => NaN
  end.

(** -1, 0 or 1; 0 for NaN. *)
Definition signOf (a : JsNumber) : Z :=
  match a with
  | NaN => 0
  | NegInfinity => -1
  | Finite q => Z.sgn (Qnum q)
  | PosInfinity => 1
  end.

Definition infinity (sign : Z) : JsNumber :=
  if sign <? 0 then NegInfinity else PosInfinity.

(** [a * b] *)
Definition times (a b : JsNumber) : JsNumber :=
  match a, b with
  | NaN, _ | _, NaN => NaN
  | Finite p, Finite q => Finite (p * q)
  | _, _ =>
      if signOf a * signOf b =? 0 then NaN else infinity (signOf a * signOf b)
  end.

(** [a + b] *)
Definition plus (a b : JsNumber) : JsNumber :=
  match a, b with
  | NaN, _ | _, NaN => NaN
  | Finite p, Finite q => Finite (p + q)
  | PosInfinity, NegInfinity | NegInfinity, PosInfinity => NaN
  | PosInfinity, _ | _, PosInfinity => PosInfinity
  | NegInfinity, _ | _, NegInfinity => NegInfinity
  end.

(** [a - b] *)
Definition minus (a b : JsNumber) : JsNumber := plus a (negate b).

(** [a / b]; a zero divisor counts as positive. *)
Definition dividedBy (a b : JsNumber) : JsNumber :=
  match a, b with
  | NaN, _ | _, NaN => NaN
  | Finite p, Finite q =>
      if Qeq_bool q 0 then
        if Qeq_bool p 0 then NaN else infinity (signOf a)
      else Finite (p / q)
  | Finite _, _ => Finite 0
  | _, Finite q => infinity (signOf a * (if Qltb q 0 then -1 else 1))
  | _, _ => NaN
  end.

(** First significant decimal digit of [q], for [0 < q < 1]. *)
Fixpoint firstDigitBelowOne (fuel : nat) (q : Q) : Z :=
  match fuel with
  | O => 0
  | S fuel' =>
      let q10 := (q * 10)%Q in
      if Qle_bool 1 q10 then Qfloor q10 else firstDigitBelowOne fuel' q10
  end.

(** First decimal digit of the integer [n >= 1]. *)
Fixpoint firstDigit (fuel : nat) (n : Z) : Z :=
  match fuel with
  | O => n
  | S fuel' => if n <? 10 then n else firstDigit fuel' (n / 10)
  end.

(** [parseInt(x)] for a number [x], which parseInt first converts to its
    decimal string. From 1e-6 up to, not including, 1e21 the string is in
    plain notation and its integer part is [x] truncated. A smaller or
    larger magnitude is written with an exponent, "d.ddde-7", and parseInt
    stops after the first digit. "NaN" and "Infinity" start with no
    digit. *)
Definition parseIntNumber (x : JsNumber) : Num :=
  match x with
  | NaN | NegInfinity | PosInfinity => None
  | Finite q =>
      let a := Qabs q in
      let sign := if Qltb q 0 then -1 else 1 in
      Some (sign *
            (if Qeq_bool a 0 then 0
             else if Qltb a (1 # 1000000) then
               firstDigitBelowOne (S (Z.to_nat (Z.log2 (Zpos (Qden a))))) a
             else if Qltb a (inject_Z (10 ^ 21)) then Qfloor a
             else firstDigit (Z.to_nat (Z.log2 (Qfloor a))) (Qfloor a)))
  end.

(** The two clamping assignments of shadeColor, [R = R < 255 ? R : 255]
    and [R = R > 0 ? R : 0]: a comparison with NaN is false. *)
Definition clamp (R : Num) : Z :=
  let R1 := match R with
            | Some v => if v <? 255 then v else 255
            | None => 255
            end in
  if 0 <? R1 then R1 else 0.

Definition hexDigit (d : Z) : ascii :=
  match d with
  | 0 => "0" | 1 => "1" | 2 => "2" | 3 => "3" | 4 => "4" | 5 => "5"
  | 6 => "6" | 7 => "7" | 8 => "8" | 9 => "9" | 10 => "a" | 11 => "b"
  | 12 => "c" | 13 => "d" | 14 => "e" | _ => "f"
  end%char.

(** The hexadecimal digits of [n >= 0] in front of [acc]. *)
Fixpoint hexDigits (fuel : nat) (n : Z) (acc : string) : string :=
  match fuel with
  | O => acc
  | S fuel' =>
      let acc' := String (hexDigit (n mod 16)) acc in
      if n <? 16 then acc' else hexDigits fuel' (n / 16) acc'
  end.

(** [n.toString(16)] for an integer [n]. *)
Definition toString16 (n : Z) : string :=
  if n <? 0 then String "-" (hexDigits (S (Z.to_nat (Z.log2 (- n)))) (- n) "")
  else hexDigits (S (Z.to_nat (Z.log2 n))) n "".

(** [R.toString(16).length == 1 ? "0" + R.toString(16) : R.toString(16)] *)
Definition twoDigits (R : Z) : string :=
  if (String.length (toString16 R) =? 1)%nat then "0" +:+ toString16 R
  else toString16 R.

(** The lines of shadeColor for one of R, G and B: the field of the
    colour from index [first] to [last] is read, scaled, truncated by
    parseInt, clamped and written as two digits. *)
Definition shadeChannel (first last : nat) (color : string) (percent : JsNumber)
  : string :=
  let R := parseInt16 (substringBetween first last color) in
  let R := parseIntNumber (times (ofNum R) (plus (Finite 1) percent)) in
  twoDigits (clamp R).

Definition shadeColor (color : string) (percent : JsNumber) : string :=
  "#" +:+ shadeChannel 1 3 color percent
      +:+ shadeChannel 3 5 color percent
      +:+ shadeChannel 5 7 color percent.

(** What [Math.round] returns: an integer, unless its argument is NaN or
    infinite. *)
Inductive Rounded :=
  | RoundedNaN
  | RoundedNegInfinity
  | RoundedTo (n : Z)
  | RoundedPosInfinity.

(** [Math.round(x)]: the nearest integer, a half rounded up. *)
Definition mathRound (x : JsNumber) : Rounded :=
  match x with
  | NaN => RoundedNaN
  | NegInfinity => RoundedNegInfinity
  | Finite q => RoundedTo (Qfloor (q + (1 # 2)))
  | PosInfinity => RoundedPosInfinity
  end.

(** [c.toString(16)] for a rounded number. *)
Definition roundedToString16 (c : Rounded) : string :=
  match c with
  | RoundedNaN => "NaN"
  | RoundedNegInfinity => "-Infinity"
  | RoundedTo n => toString16 n
  | RoundedPosInfinity => "Infinity"
  end.

(** [s.padStart(2, "0")] *)
Definition padStart2 (s : string) : string :=
  match String.length s with
  | 0%nat => "00"
  | 1%nat => "0" +:+ s
  | _ => s
  end.

(** One pass of the loop of interpolateColor, on the fields of the two
    colours from index [first] to [last]. *)
Definition interpolateChannel (first last : nat) (color1 color2 : string)
    (factor : JsNumber) : Rounded :=
  let c1 := parseInt16 (substringBetween first last color1) in
  let c2 := parseInt16 (substringBetween first last color2) in
  mathRound (plus (times (ofNum c1) (minus (Finite 1) factor))
                  (times (ofNum c2) factor)).

Definition interpolateColor (color1 color2 : string) (factor : JsNumber)
  : string :=
  "#" +:+ padStart2 (roundedToString16 (interpolateChannel 1 3 color1 color2 factor))
      +:+ padStart2 (roundedToString16 (interpolateChannel 3 5 color1 color2 factor))
      +:+ padStart2 (roundedToString16 (interpolateChannel 5 7 color1 color2 factor)).

(** A property of the object [colorMap] read by name: one of its own four
    entries, a member it inherits from Object.prototype (a function, or
    the prototype itself for [__proto__]), or undefined. *)
Inductive Property :=
  | Own (color : string)
  | Inherited
  | Undefined.

Definition objectPrototype : list string :=
  [ "constructor"; "hasOwnProperty"; "isPrototypeOf"; "propertyIsEnumerable";
    "toLocaleString"; "toString"; "valueOf"; "__proto__";
    "__defineGetter__"; "__defineSetter__"; "__lookupGetter__";
    "__lookupSetter__" ]%string.

Definition colorMap (name : string) : Property :=
  if String.eqb name "WATER" then Own "#4287f5"
  else if String.eqb name "GRASS" then Own "#34a12d"
  else if String.eqb name "DIRT" then Own "#855a38"
  else if String.eqb name "MOUNTAIN" then Own "#a1a2a3"
  else if bool_decide (name ∈ objectPrototype) then Inherited
  else Undefined.

(** The colour in which drawTerrain fills a tile. An inherited member of
    [colorMap] is truthy and no string: shadeColor calls its missing
    [substring] and throws a TypeError, which is [None] here. *)
Definition tileColor (DEFAULT_GRASS_FOOD : JsNumber) (tile : Tile)
  : option string :=
  let percent := Finite (t_height tile * (2 # 5)) in
  if String.eqb (t_terrain tile) "GRASS" then
    let foodPercent := dividedBy (Finite (t_food tile)) DEFAULT_GRASS_FOOD in
    Some (shadeColor (interpolateColor "#855a38" "#34a12d" foodPercent) percent)
  else
    match colorMap (t_terrain tile) with
    | Own baseColor => Some (shadeColor baseColor percent)
    | Undefined => Some (shadeColor "#000" percent)
    | Inherited => None
    end.

(** A call of [ctx.fillRect] that paints, with the [fillStyle] in force. *)
Record FillRect := mkFillRect {
  fillStyle : string;
  rect_x : Q; rect_y : Q; rect_w : Q; rect_h : Q;
}.

(** Column and row of tile [i]: [i % view.w] and [Math.floor(i / view.w)]. *)
Definition tileColumn (view : View) (i : Z) : Z := Z.rem i (v_w view).
Definition tileRow (view : View) (i : Z) : Z := i / v_w view.

(** The fillRect call for tile [i]. With a view of width or height 0 the
    tile size is infinite or NaN, and fillRect ignores a call with such an
    argument. *)
Definition fillTile (cv : Canvas) (view : View) (i : Z) (finalColor : string)
  : list FillRect :=
  if (v_w view =? 0) || (v_h view =? 0) then []
  else [ {| fillStyle := finalColor;
            rect_x := inject_Z (tileColumn view i) * tileWidth cv view;
            rect_y := inject_Z (tileRow view i) * tileHeight cv view;
            rect_w := tileWidth cv view;
            rect_h := tileHeight cv view |} ].

(** The loop of drawTerrain from tile [i] on: the rectangles painted, and
    whether the loop ended in an exception. *)
Fixpoint drawTiles (cv : Canvas) (DEFAULT_GRASS_FOOD : JsNumber) (view : View)
    (i : Z) (tiles : list Tile) : list FillRect * bool :=
  match tiles with
  | [] => ([], false)
  | tile :: rest =>
      match tileColor DEFAULT_GRASS_FOOD tile with
      | None => ([], true)
      | Some finalColor =>
          let '(painted, thrown) :=
            drawTiles cv DEFAULT_GRASS_FOOD view (i + 1) rest in
          (fillTile cv view i finalColor ++ painted, thrown)
      end
  end.

Definition drawTerrain (cv : Canvas) (DEFAULT_GRASS_FOOD : JsNumber)
    (view : View) (s : State) : list FillRect * bool :=
  match currentTerrainData s with
  | None => ([], false)
  | Some tiles => drawTiles cv DEFAULT_GRASS_FOOD view 0 tiles
  end.

(** A colour as shadeColor writes it: [#] and six lower-case hexadecimal
    digits. *)
Definition isLowerHexDigit (a : ascii) : bool :=
  let n := charCode a in
  ((48 <=? n) && (n <=? 57)) || ((97 <=? n) && (n <=? 102)).

Definition isHexColor (color : string) : bool :=
  match color with
  | String "#" (String r1 (String r2 (String g1 (String g2
      (String b1 (String b2 EmptyString)))))) =>
      forallb isLowerHexDigit [r1; r2; g1; g2; b1; b2]
  | _ => false
  end.


(** * Properties *)

(** ** Entity display cache *)

Section Reconcile.

Implicit Types (data : gmap Z DisplayRecord) (cs : list Critter) (k : Z).

Lemma upsert_lookup_same data c :
  upsert data c !! c_id c = upsertAt (data !! c_id c) c.
Proof.
  unfold upsert, upsertAt.
  destruct (data !! c_id c) as [r|]; by rewrite lookup_insert_eq.
Qed.

Lemma upsert_lookup_other data c k :
  c_id c ≠ k → upsert data c !! k = data !! k.
Proof.
  intros Hne. unfold upsert.
  destruct (data !! c_id c) as [r|]; by rewrite lookup_insert_ne.
Qed.

(** The entry of [k] after the loop depends on the entry of [k] before it
    and on the fetched critters of id [k], in their order. *)
Lemma foldl_upsert_lookup cs : ∀ data k,
  foldl upsert data cs !! k
  = foldl upsertAt (data !! k) (filter (λ c, c_id c = k) cs).
Proof.
  induction cs as [|c cs IH]; intros data k; [done|].
  cbn [foldl]. rewrite IH, filter_cons.
  destruct (decide (c_id c = k)) as [<-|Hne]; cbn [foldl].
  - by rewrite upsert_lookup_same.
  - by rewrite upsert_lookup_other.
Qed.

Lemma removeStale_lookup live data k :
  removeStale live data !! k = if decide (k ∈ live) then data !! k else None.
Proof.
  unfold removeStale. rewrite map_lookup_filter.
  destruct (data !! k) as [r|]; cbn; [|by case_decide].
  case_decide; [by rewrite option_guard_True | by rewrite option_guard_False].
Qed.

Lemma elem_of_liveCritterIds cs k :
  k ∈ liveCritterIds cs ↔ ∃ c, c ∈ cs ∧ c_id c = k.
Proof.
  unfold liveCritterIds. rewrite elem_of_list_to_set, list_elem_of_fmap.
  split; intros (c & H1 & H2); exists c; by split.
Qed.

Lemma filter_id_nil cs k :
  k ∉ liveCritterIds cs → filter (λ c, c_id c = k) cs = [].
Proof.
  intros Hk. induction cs as [|c cs IH]; [done|].
  rewrite filter_cons. destruct (decide (c_id c = k)) as [Heq|Hne].
  - exfalso. apply Hk, elem_of_liveCritterIds. exists c. split; [left|done].
  - apply IH. intros Hin. apply Hk.
    apply elem_of_liveCritterIds in Hin as (c' & Hc' & Hid).
    apply elem_of_liveCritterIds. exists c'. split; [by right|done].
Qed.

Lemma reconcile_lookup cs data k :
  reconcile cs data !! k
  = foldl upsertAt (if decide (k ∈ liveCritterIds cs) then data !! k else None)
          (filter (λ c, c_id c = k) cs).
Proof. unfold reconcile. by rewrite foldl_upsert_lookup, removeStale_lookup. Qed.

Lemma reconcile_lookup_absent cs data k :
  k ∉ liveCritterIds cs → reconcile cs data !! k = None.
Proof.
  intros Hk. rewrite reconcile_lookup, filter_id_nil by done.
  by rewrite decide_False.
Qed.

Lemma foldl_upsertAt_is_Some cs : ∀ entry,
  cs ≠ [] → is_Some (foldl upsertAt entry cs).
Proof.
  induction cs as [|c cs IH]; intros entry Hne; [done|].
  cbn [foldl]. destruct cs as [|c' cs']; [by eexists|].
  by apply IH.
Qed.

(** From an existing record, the loop keeps the current position; target
    and snapshot are those of the last critter. *)
Lemma foldl_upsertAt_Some cs : ∀ r,
  foldl upsertAt (Some r) cs
  = Some (match last cs with Some c => retarget c r | None => r end).
Proof.
  induction cs as [|c cs IH]; intros r; [done|].
  cbn [foldl]. change (upsertAt (Some r) c) with (Some (retarget c r)).
  rewrite IH, last_cons. by destruct (last cs).
Qed.

Lemma reconcile_lookup_present cs data k :
  k ∈ liveCritterIds cs → is_Some (reconcile cs data !! k).
Proof.
  intros Hk. rewrite reconcile_lookup. apply foldl_upsertAt_is_Some.
  apply elem_of_liveCritterIds in Hk as (c & Hc & Hid).
  intros Hnil. assert (c ∈ filter (λ c, c_id c = k) cs) as Hin
    by (apply list_elem_of_filter; done).
  rewrite Hnil in Hin. by apply not_elem_of_nil in Hin.
Qed.

Lemma reconcile_dom cs data : dom (reconcile cs data) = liveCritterIds cs.
Proof.
  apply set_eq. intros k. rewrite elem_of_dom.
  destruct (decide (k ∈ liveCritterIds cs)) as [Hk|Hk].
  - split; [done|]. intros _. by apply reconcile_lookup_present.
  - rewrite reconcile_lookup_absent by done. split; [by intros [? ?]|done].
Qed.

(** With distinct ids, the critter [c] is the only one of its id. *)
Lemma filter_id_unique cs c :
  NoDup (c_id <$> cs) → c ∈ cs → filter (λ c', c_id c' = c_id c) cs = [c].
Proof.
  induction cs as [|a cs IH]; intros Hnd Hin; [by apply not_elem_of_nil in Hin|].
  rewrite fmap_cons in Hnd. apply NoDup_cons in Hnd as [Ha Hnd].
  rewrite filter_cons. apply elem_of_cons in Hin as [->|Hin].
  - rewrite decide_True by done. f_equal.
    apply filter_id_nil. unfold liveCritterIds.
    by rewrite elem_of_list_to_set.
  - rewrite decide_False; [by apply IH|].
    intros Heq. apply Ha. rewrite Heq. by apply list_elem_of_fmap_2.
Qed.

End Reconcile.

Section LiveUpdate.

Implicit Types (s : State) (cs : list Critter) (season : Fetch string).

Lemma updateSeasonDisplay_display season s :
  critterDisplayData (updateSeasonDisplay season s) = critterDisplayData s.
Proof. by destruct season. Qed.

Lemma handleLiveUpdate_display cs season s :
  is_Some (currentTerrainData s) →
  critterDisplayData (handleLiveUpdate (Fulfilled cs) season s)
  = reconcile cs (critterDisplayData s).
Proof.
  intros [tiles Ht]. unfold handleLiveUpdate. rewrite Ht.
  by rewrite updateSeasonDisplay_display.
Qed.

Lemma handleLiveUpdate_selected resp season s :
  selectedCritter (handleLiveUpdate resp season s) = selectedCritter s
  ∧ statsContent (handleLiveUpdate resp season s) = statsContent s
  ∧ eventLogFor (handleLiveUpdate resp season s) = eventLogFor s.
Proof.
  unfold handleLiveUpdate.
  destruct (currentTerrainData s); [|done].
  by destruct resp, season.
Qed.

(** The two map pages reconcile alike. *)
Lemma handleLiveUpdate_same_display resp season s :
  critterDisplayData (handleLiveUpdate resp season s)
  = critterDisplayData (MainJs.handleLiveUpdate resp s).
Proof.
  unfold handleLiveUpdate, MainJs.handleLiveUpdate.
  destruct (currentTerrainData s); [|done].
  by rewrite updateSeasonDisplay_display.
Qed.

End LiveUpdate.

(** C1. After a live update whose fetch succeeded, the keys of the cache
    are exactly the ids of the fetched list (so its size is the number of
    distinct fetched ids) and every other id has no record; with the ids of
    the list distinct, the record of a fetched critter holds that critter
    as snapshot and its position as target, and its current position is
    the one it had before the update when the id was cached, and the
    critter's position when the id is new. *)
Theorem handleLiveUpdate_reconciles
    (s : State) (critters : list Critter) (season : Fetch string) :
  is_Some (currentTerrainData s) →
  let before := critterDisplayData s in
  let after := critterDisplayData (handleLiveUpdate (Fulfilled critters) season s) in
  dom after = list_to_set (c_id <$> critters)
  ∧ size after = size (list_to_set (c_id <$> critters) : gset Z)
  ∧ (∀ k, k ∉ (c_id <$> critters) → after !! k = None)
  ∧ (NoDup (c_id <$> critters) →
     ∀ c, c ∈ critters →
       ∃ r', after !! c_id c = Some r'
         ∧ critter r' = c ∧ targetX r' = c_x c ∧ targetY r' = c_y c
         ∧ match before !! c_id c with
           | Some r => currentX r' = currentX r ∧ currentY r' = currentY r
           | None => currentX r' = c_x c ∧ currentY r' = c_y c
           end).
Proof.
  intros Hloaded before after. subst before after.
  rewrite handleLiveUpdate_display by done.
  split; [apply reconcile_dom|].
  split; [by rewrite <- size_dom, reconcile_dom|].
  split.
  - intros k Hk. apply reconcile_lookup_absent.
    unfold liveCritterIds. by rewrite elem_of_list_to_set.
  - intros Hnd c Hc. rewrite reconcile_lookup, filter_id_unique by done.
    rewrite decide_True
      by (apply elem_of_liveCritterIds; exists c; by split).
    cbn [foldl upsertAt].
    destruct (critterDisplayData s !! c_id c) as [r|]; eexists; by repeat split.
Qed.

(** Critter 1 moves, critter 2 leaves and critter 3 arrives. *)
Lemma handleLiveUpdate_reconciles_witness :
  let s' := handleLiveUpdate
              (Fulfilled [herbivore 1 46 45; herbivore 3 40 41])
              (Fulfilled "SPRING") sampleState in
  dom (critterDisplayData s') = {[1; 3]}
  ∧ critterDisplayData s' !! 2 = None
  ∧ (∃ r, critterDisplayData s' !! 1 = Some r
          ∧ currentX r = 45%Q ∧ targetX r = 46%Q)
  ∧ (∃ r, critterDisplayData s' !! 3 = Some r
          ∧ currentX r = 40%Q ∧ targetX r = 40%Q).
Proof.
  assert (is_Some (currentTerrainData sampleState)) as Hloaded by (by eexists).
  destruct (handleLiveUpdate_reconciles sampleState
              [herbivore 1 46 45; herbivore 3 40 41] (Fulfilled "SPRING")
              Hloaded) as (Hdom & _ & Hgone & Hrec).
  assert (NoDup (c_id <$> [herbivore 1 46 45; herbivore 3 40 41])) as Hnd
    by compute_done.
  intros s'. subst s'. split; [|split; [|split]].
  - rewrite Hdom. cbn. by rewrite union_empty_r_L.
  - apply Hgone. compute_done.
  - destruct (Hrec Hnd (herbivore 1 46 45)) as (r & Hr & _ & Htx & _ & Hcur);
      [left|].
    exists r. split; [exact Hr|]. split; [|exact Htx]. apply Hcur.
  - destruct (Hrec Hnd (herbivore 3 40 41)) as (r & Hr & _ & Htx & _ & Hcur);
      [right; left|].
    exists r. split; [exact Hr|]. split; [|exact Htx]. apply Hcur.
Defined.

Section Idempotence.

Implicit Types (data : gmap Z DisplayRecord) (cs : list Critter) (k : Z).

Lemma foldl_upsertAt_last cs entry r :
  cs ≠ [] → foldl upsertAt entry cs = Some r →
  ∃ c, last cs = Some c
       ∧ targetX r = c_x c ∧ targetY r = c_y c ∧ critter r = c.
Proof.
  destruct cs as [|c cs]; [done|]. intros _.
  cbn [foldl]. unfold upsertAt at 2. rewrite foldl_upsertAt_Some, last_cons.
  intros [= <-]. destruct (last cs) as [c'|]; eexists; split; try done;
    by destruct entry.
Qed.

Lemma reconcile_inSync cs data : inSync cs (reconcile cs data).
Proof.
  split; [apply reconcile_dom|]. intros k r Hr.
  destruct (decide (k ∈ liveCritterIds cs)) as [Hk|Hk];
    [|by rewrite reconcile_lookup_absent in Hr].
  rewrite reconcile_lookup in Hr.
  apply foldl_upsertAt_last in Hr; [done|].
  apply elem_of_liveCritterIds in Hk as (c & Hc & Hid).
  intros Hnil. assert (c ∈ filter (λ c, c_id c = k) cs) as Hin
    by (by apply list_elem_of_filter).
  rewrite Hnil in Hin. by apply not_elem_of_nil in Hin.
Qed.

(** Reconciling a cache that is in sync with the list changes nothing. *)
Lemma reconcile_fixed cs data : inSync cs data → reconcile cs data = data.
Proof.
  intros [Hdom Hrec]. apply map_eq. intros k. rewrite reconcile_lookup.
  destruct (decide (k ∈ liveCritterIds cs)) as [Hk|Hk].
  - rewrite <- Hdom in Hk. apply elem_of_dom in Hk as [r Hr].
    rewrite Hr, foldl_upsertAt_Some.
    destruct (Hrec k r Hr) as (c & -> & Hx & Hy & Hc).
    f_equal. destruct r; cbn in *; by subst.
  - rewrite filter_id_nil by done. cbn.
    symmetry. apply not_elem_of_dom. by rewrite Hdom.
Qed.

Lemma inSync_advance cs data : inSync cs data → inSync cs (advance <$> data).
Proof.
  intros [Hdom Hrec]. split; [by rewrite dom_fmap_L|].
  intros k r. rewrite lookup_fmap.
  destruct (data !! k) as [r0|] eqn:Hr0; [|done].
  intros [= <-]. apply (Hrec k r0 Hr0).
Qed.

Lemma inSync_frames cs data n :
  inSync cs data → inSync cs (Nat.iter n (fmap advance) data).
Proof.
  intros Hs. induction n as [|n IH]; [done|].
  cbn [Nat.iter]. by apply inSync_advance.
Qed.

End Idempotence.

Lemma handleLiveUpdate_terrain (resp : Fetch (list Critter))
    (season : Fetch string) (s : State) :
  currentTerrainData (handleLiveUpdate resp season s) = currentTerrainData s.
Proof.
  unfold handleLiveUpdate.
  destruct (currentTerrainData s) as [tiles|] eqn:Ht; [|done].
  by destruct resp, season.
Qed.

(** C7. Reconciling twice with the same list gives the cache that
    reconciling once gives: no target, snapshot or current position
    changes the second time. The same holds when frames of the render
    loop ran in between: the second reconciliation does not put the
    current positions back on the snapshot positions. And so for two
    live updates in a row that fetch the same list. *)
Theorem reconcile_idempotent (critters : list Critter)
    (data : gmap Z DisplayRecord) :
  reconcile critters (reconcile critters data) = reconcile critters data
  ∧ (∀ n : nat,
      reconcile critters (Nat.iter n (fmap advance) (reconcile critters data))
      = Nat.iter n (fmap advance) (reconcile critters data))
  ∧ (∀ (s : State) (season1 season2 : Fetch string),
      critterDisplayData
        (handleLiveUpdate (Fulfilled critters) season2
           (handleLiveUpdate (Fulfilled critters) season1 s))
      = critterDisplayData (handleLiveUpdate (Fulfilled critters) season1 s)).
Proof.
  split; [|split].
  - apply reconcile_fixed, reconcile_inSync.
  - intros n. apply reconcile_fixed, inSync_frames, reconcile_inSync.
  - intros s season1 season2.
    destruct (currentTerrainData s) as [tiles|] eqn:Ht.
    + rewrite !handleLiveUpdate_display
        by (rewrite ?handleLiveUpdate_terrain, Ht; by eexists).
      apply reconcile_fixed, reconcile_inSync.
    + unfold handleLiveUpdate at 2 3. rewrite Ht.
      unfold handleLiveUpdate. by rewrite Ht.
Qed.

(** What a frame computes for the cache and the selection depends on the
    cache and the selection only. *)
Lemma animationLoop_reads (s1 s2 : State) :
  critterDisplayData s1 = critterDisplayData s2 →
  selectedCritter s1 = selectedCritter s2 →
  critterDisplayData (animationLoop s1) = critterDisplayData (animationLoop s2)
  ∧ selectedCritter (animationLoop s1) = selectedCritter (animationLoop s2).
Proof.
  destruct s1 as [t1 v1 d1 sel1 p1 e1 n1 u1 l1], s2 as [t2 v2 d2 sel2 p2 e2 n2 u2 l2].
  cbn. intros -> ->. unfold animationLoop. cbn.
  destruct sel2 as [sel|]; cbn; [|done].
  by destruct ((advance <$> d2) !! c_id sel).
Qed.

Lemma handleLiveUpdate_rejected_fields (s : State) (err : string)
    (season : Fetch string) :
  let s' := handleLiveUpdate (Rejected err) season s in
  critterDisplayData s' = critterDisplayData s
  ∧ currentTerrainData s' = currentTerrainData s
  ∧ currentView s' = currentView s
  ∧ selectedCritter s' = selectedCritter s.
Proof.
  unfold handleLiveUpdate.
  destruct (currentTerrainData s) as [tiles|] eqn:Ht; cbn zeta.
  - by destruct season.
  - by rewrite Ht.
Qed.

(** C9. A live update whose critter fetch is rejected leaves the cache as
    it was, and with it the terrain, the view and the selection that the
    render loop reads, so the next frame computes what it would have
    computed; the error is on the console. The same holds on the earlier
    map page. *)
Theorem handleLiveUpdate_rejected
    (s : State) (err : string) (season : Fetch string) :
  let s' := handleLiveUpdate (Rejected err) season s in
  critterDisplayData s' = critterDisplayData s
  ∧ currentTerrainData s' = currentTerrainData s
  ∧ currentView s' = currentView s
  ∧ selectedCritter s' = selectedCritter s
  ∧ critterDisplayData (animationLoop s') = critterDisplayData (animationLoop s)
  ∧ selectedCritter (animationLoop s') = selectedCritter (animationLoop s)
  ∧ (is_Some (currentTerrainData s) → err ∈ console s')
  ∧ critterDisplayData (MainJs.handleLiveUpdate (Rejected err) s)
    = critterDisplayData s
  ∧ (is_Some (currentTerrainData s) →
     console (MainJs.handleLiveUpdate (Rejected err) s) = err :: console s).
Proof.
  intros s'.
  destruct (handleLiveUpdate_rejected_fields s err season)
    as (Hd & Ht & Hv & Hs). fold s' in Hd, Ht, Hv, Hs.
  destruct (animationLoop_reads s' s Hd Hs) as [Had Has].
  repeat split; try done.
  - intros [tiles Htiles]. subst s'. unfold handleLiveUpdate. rewrite Htiles.
    destruct season; cbn; [right; left | left].
  - by rewrite <- (handleLiveUpdate_same_display _ season).
  - intros [tiles Htiles]. unfold MainJs.handleLiveUpdate. by rewrite Htiles.
Qed.

Lemma handleLiveUpdate_rejected_witness :
  critterDisplayData
    (handleLiveUpdate (Rejected "Failed to fetch critters")
                      (Fulfilled "SPRING") sampleState)
  = critterDisplayData sampleState
  ∧ "Failed to fetch critters"
      ∈ console (handleLiveUpdate (Rejected "Failed to fetch critters")
                                  (Fulfilled "SPRING") sampleState).
Proof.
  destruct (handleLiveUpdate_rejected sampleState "Failed to fetch critters"
              (Fulfilled "SPRING")) as (Hdata & _ & _ & _ & _ & _ & Hlog & _).
  split; [exact Hdata|]. apply Hlog. by eexists.
Defined.

(** C10. handleManualUpdate stores the new viewport and pushes the URL
    before it awaits a response. When the terrain fetch is rejected the
    handler ends with the error logged, the new viewport in [currentView],
    and terrain and cache as they were; when the terrain fetch succeeds and
    the critter fetch is rejected, the terrain is the new one and the cache
    is still the old one. *)
Theorem handleManualUpdate_not_atomic
    (s : State) (input : View) (tiles : list Tile) (err : string)
    (resp : Fetch (list Critter)) :
  (let s' := handleManualUpdate input (Rejected err) resp s in
   currentView s' = input
   ∧ pushedUrls s' = input :: pushedUrls s
   ∧ currentTerrainData s' = currentTerrainData s
   ∧ critterDisplayData s' = critterDisplayData s
   ∧ console s' = err :: console s)
  ∧ (let s' := handleManualUpdate input (Fulfilled tiles) (Rejected err) s in
     currentView s' = input
     ∧ pushedUrls s' = input :: pushedUrls s
     ∧ currentTerrainData s' = Some tiles
     ∧ critterDisplayData s' = critterDisplayData s
     ∧ console s' = err :: console s).
Proof. by repeat split. Qed.

Section RenderLoop.

Implicit Types (s : State) (k : Z) (r : DisplayRecord).

Lemma animationLoop_display s :
  critterDisplayData (animationLoop s) = advance <$> critterDisplayData s.
Proof.
  unfold animationLoop. cbn.
  destruct (selectedCritter s) as [sel|]; [|done].
  by destruct ((advance <$> critterDisplayData s) !! c_id sel).
Qed.








End RenderLoop.




(** ** Interpolation *)

Section Ease.

Local Open Scope Q_scope.

Implicit Types (c t eps : Q) (n : nat).








End Ease.



(** ** Hit-tester *)

Section HitTest.

Variables (cv : Canvas) (v : View) (mouseX mouseY : Q).

Implicit Types (r : DisplayRecord) (records : list DisplayRecord).

Lemma Qltb_lt (a b : Q) : Qltb a b = true ↔ (a < b)%Q.
Proof. unfold Qltb, Qlt. apply Z.ltb_lt. Qed.

Lemma distanceSq_nonneg r : (0 <= distanceSq cv v mouseX mouseY r)%Q.
Proof.
  unfold distanceSq.
  set (a := (critterCanvasX cv v r - mouseX)%Q).
  set (b := (critterCanvasY cv v r - mouseY)%Q).
  assert (0 <= a * a)%Q by nra. assert (0 <= b * b)%Q by nra.
  assert (a ^ 2 == a * a)%Q as -> by (simpl; ring).
  assert (b ^ 2 == b * b)%Q as -> by (simpl; ring).
  lra.
Qed.

Lemma Q2R_nonneg (a : Q) : (0 <= a)%Q → (0 <= Q2R a)%R.
Proof.
  intros Ha. replace 0%R with (Q2R 0) by Lra.lra. by apply Qle_Rle.
Qed.

(** [Math.sqrt] keeps the order of non-negative numbers. *)
Lemma sqrt_lt_iff (a b : Q) :
  (0 <= a)%Q → (a < b)%Q ↔ (sqrt (Q2R a) < sqrt (Q2R b))%R.
Proof.
  intros Ha. split.
  - intros Hab. apply sqrt_lt_1_alt. split.
    + by apply Q2R_nonneg.
    + by apply Qlt_Rlt.
  - intros Hs. by apply Rlt_Qlt, sqrt_lt_0_alt.
Qed.

Lemma sqrt_le_iff (a b : Q) :
  (0 <= a)%Q → (0 <= b)%Q → (a <= b)%Q ↔ (sqrt (Q2R a) <= sqrt (Q2R b))%R.
Proof.
  intros Ha Hb. split.
  - intros Hab. by apply sqrt_le_1_alt, Qle_Rle.
  - intros Hs. apply Rle_Qle, sqrt_le_0; [| |done]; by apply Q2R_nonneg.
Qed.

Lemma sqrt_lt_bound_iff (a bound : Q) :
  (0 <= a)%Q → (0 <= bound)%Q →
  (a < bound ^ 2)%Q ↔ (sqrt (Q2R a) < Q2R bound)%R.
Proof.
  intros Ha Hb.
  assert (Q2R bound = sqrt (Q2R (bound ^ 2))) as ->.
  { assert (bound ^ 2 == bound * bound)%Q as -> by (simpl; ring).
    rewrite Q2R_mult, sqrt_square; [done|]. by apply Q2R_nonneg. }
  by apply sqrt_lt_iff.
Qed.

Lemma within_radius r :
  (distanceSq cv v mouseX mouseY r < hitRadius ^ 2)%Q
  ↔ (distance cv v mouseX mouseY r < Q2R hitRadius)%R.
Proof.
  apply sqrt_lt_bound_iff; [apply distanceSq_nonneg | done].
Qed.

Lemma hitScan_snoc records r :
  hitScan cv v mouseX mouseY (records ++ [r])
  = hitStep cv v mouseX mouseY (hitScan cv v mouseX mouseY records) r.
Proof. unfold hitScan. by rewrite foldl_app. Qed.

(** A record of [records ++ [r]] is one of [records] or is [r]. *)
Ltac seen_or_last H :=
  apply elem_of_app in H as [H|H];
  [|apply list_elem_of_singleton in H as ->].

(** Invariant of the scan: either nothing seen so far is within the
    radius, or the loop holds the snapshot and the squared distance of a
    seen record that is within the radius and at least as near as every
    seen record. *)
Lemma hitScan_spec records :
  match hitScan cv v mouseX mouseY records with
  | (Some c, Some m) =>
      ∃ r, r ∈ records ∧ critter r = c
           ∧ m = distanceSq cv v mouseX mouseY r
           ∧ (m < hitRadius ^ 2)%Q
           ∧ ∀ r', r' ∈ records → (m <= distanceSq cv v mouseX mouseY r')%Q
  | (None, None) =>
      ∀ r, r ∈ records → ¬ (distanceSq cv v mouseX mouseY r < hitRadius ^ 2)%Q
  | _ => False
  end.
Proof.
  induction records as [|r records IH] using rev_ind.
  - cbn. intros r Hr. by apply not_elem_of_nil in Hr.
  - rewrite hitScan_snoc. unfold hitStep. fold hitRadius.
    set (d := distanceSq cv v mouseX mouseY r).
    destruct (hitScan cv v mouseX mouseY records) as [[c|] [m|]];
      try done; cbn [snd belowMin].
    + (* a record is held *)
      destruct IH as (r0 & Hr0 & Hc & Hm & Hlt & Hmin).
      destruct (Qltb d (hitRadius ^ 2) && Qltb d m) eqn:Hhit.
      * apply andb_true_iff in Hhit as [Hd%Qltb_lt Hdm%Qltb_lt].
        exists r. split; [apply elem_of_app; right; left|].
        repeat split; try done.
        intros r' Hr'. seen_or_last Hr'; fold d; [|lra].
        specialize (Hmin r' Hr'). lra.
      * exists r0. split; [apply elem_of_app; by left|].
        repeat split; try done.
        intros r' Hr'. seen_or_last Hr'; [by apply Hmin|]. fold d.
        apply andb_false_iff in Hhit as [Hd|Hdm].
        -- assert (¬ (d < hitRadius ^ 2)%Q)
             by (intros H%Qltb_lt; congruence). lra.
        -- assert (¬ (d < m)%Q) by (intros H%Qltb_lt; congruence). lra.
    + (* nothing is held *)
      rewrite andb_true_r.
      destruct (Qltb d (hitRadius ^ 2)) eqn:Hd.
      * apply Qltb_lt in Hd. exists r.
        split; [apply elem_of_app; right; left|].
        repeat split; try done.
        intros r' Hr'. seen_or_last Hr'; fold d; [|lra].
        specialize (IH r' Hr'). lra.
      * intros r' Hr'. seen_or_last Hr'; [by apply IH|]. fold d.
        intros H%Qltb_lt. congruence.
Qed.

End HitTest.

Lemma handleCanvasClick_selected (cv : Canvas) (event : MouseEvent) (s : State) :
  is_Some (currentTerrainData s) →
  let s' := handleCanvasClick cv event s in
  selectedCritter s'
  = (hitScan cv (currentView s) (clientX event - rect_left cv)
             (clientY event - rect_top cv)
             ((map_to_list (critterDisplayData s)).*2)).1
  ∧ statsContent s' = selectedCritter s'
  ∧ critterDisplayData s' = critterDisplayData s.
Proof.
  intros [tiles Ht]. unfold handleCanvasClick. rewrite Ht. cbn zeta.
  destruct (hitScan _ _ _ _ _) as [[c|] m]; by cbn.
Qed.

Lemma elem_of_records (data : gmap Z DisplayRecord) (r : DisplayRecord) :
  r ∈ (map_to_list data).*2 ↔ ∃ k, data !! k = Some r.
Proof.
  rewrite list_elem_of_fmap. split.
  - intros ([k r'] & -> & Hin). exists k. by apply elem_of_map_to_list.
  - intros [k Hk]. exists (k, r). split; [done|]. by apply elem_of_map_to_list.
Qed.

(** C5. With the map loaded and a viewport of positive width and height,
    a click selects by the Euclidean pixel distance between the pointer
    and the current (interpolated) position of each record: the selected
    snapshot belongs to a record whose distance is strictly below
    [CRITTER_DRAW_RADIUS + CRITTER_CLICK_TOLERANCE] and is minimal in the
    cache (so of two records within the radius the nearer wins); when no
    record is within the radius the selection becomes none; the panel
    shows the selection. A pointer exactly at a record's pixel position
    selects a record at that position. *)
Theorem handleCanvasClick_selects_nearest
    (cv : Canvas) (event : MouseEvent) (s : State) :
  is_Some (currentTerrainData s) →
  0 < v_w (currentView s) → 0 < v_h (currentView s) →
  let mouseX := (clientX event - rect_left cv)%Q in
  let mouseY := (clientY event - rect_top cv)%Q in
  let dist := distance cv (currentView s) mouseX mouseY in
  let s' := handleCanvasClick cv event s in
  match selectedCritter s' with
  | Some c =>
      ∃ k r, critterDisplayData s !! k = Some r ∧ critter r = c
             ∧ (dist r < Q2R (CRITTER_DRAW_RADIUS + CRITTER_CLICK_TOLERANCE))%R
             ∧ ∀ k' r', critterDisplayData s !! k' = Some r' →
                        (dist r <= dist r')%R
  | None =>
      ∀ k r, critterDisplayData s !! k = Some r →
             ¬ (dist r < Q2R (CRITTER_DRAW_RADIUS + CRITTER_CLICK_TOLERANCE))%R
  end
  ∧ statsContent s' = selectedCritter s'
  ∧ (∀ k r, critterDisplayData s !! k = Some r →
            (critterCanvasX cv (currentView s) r == mouseX)%Q →
            (critterCanvasY cv (currentView s) r == mouseY)%Q →
            ∃ k0 r0, critterDisplayData s !! k0 = Some r0
                     ∧ selectedCritter s' = Some (critter r0)
                     ∧ dist r0 = 0%R).
Proof.
  intros Hloaded _ _ mouseX mouseY dist s'.
  destruct (handleCanvasClick_selected cv event s Hloaded)
    as (Hsel & Hpanel & _).
  fold s' mouseX mouseY in Hsel, Hpanel.
  pose proof (hitScan_spec cv (currentView s) mouseX mouseY
                ((map_to_list (critterDisplayData s)).*2)) as Hspec.
  assert (∀ r, (0 <= distanceSq cv (currentView s) mouseX mouseY r)%Q) as Hnn
    by (intros r; apply distanceSq_nonneg).
  assert (match selectedCritter s' with
          | Some c =>
              ∃ k r, critterDisplayData s !! k = Some r ∧ critter r = c
                     ∧ (dist r < Q2R hitRadius)%R
                     ∧ ∀ k' r', critterDisplayData s !! k' = Some r' →
                                (dist r <= dist r')%R
          | None =>
              ∀ k r, critterDisplayData s !! k = Some r →
                     ¬ (dist r < Q2R hitRadius)%R
          end) as Hmain.
  { rewrite Hsel.
    destruct (hitScan _ _ _ _ _) as [[c|] [m|]]; try done; cbn [fst].
    - destruct Hspec as (r & [k Hk]%elem_of_records & Hc & -> & Hlt & Hmin).
      exists k, r. split; [done|]. split; [done|]. split.
      + by apply within_radius.
      + intros k' r' Hk'. apply sqrt_le_iff; [done..|].
        apply Hmin, elem_of_records. by exists k'.
    - intros k r Hk Hlt. apply within_radius in Hlt.
      apply (Hspec r); [|done]. apply elem_of_records. by exists k. }
  split; [exact Hmain|]. split; [exact Hpanel|].
  intros k r Hk Hx Hy.
  assert (distanceSq cv (currentView s) mouseX mouseY r == 0)%Q as Hzero.
  { unfold distanceSq. rewrite Hx, Hy. simpl. ring. }
  assert (dist r = 0%R) as Hdr.
  { unfold dist, distance. rewrite (Qeq_eqR _ _ Hzero).
    replace (Q2R 0) with 0%R by Lra.lra. apply sqrt_0. }
  destruct (selectedCritter s') as [c|].
  - destruct Hmain as (k0 & r0 & Hk0 & <- & _ & Hmin).
    exists k0, r0. split; [done|]. split; [done|].
    specialize (Hmin k r Hk). rewrite Hdr in Hmin.
    apply Rle_antisym; [done|]. apply sqrt_pos.
  - exfalso. apply (Hmain k r Hk). rewrite Hdr.
    replace 0%R with (Q2R 0) by Lra.lra. by apply Qlt_Rlt.
Qed.

(** The sample canvas shows critter 1 at pixel (220, 220) and critter 2
    at (420, 420); a click at (222, 223) is 3.6 pixels from the first and
    selects it. *)
Lemma handleCanvasClick_selects_nearest_witness :
  selectedCritter (handleCanvasClick sampleCanvas (mkClick 222 223) sampleState)
  = Some (herbivore 1 45 45)
  ∧ ∃ k r, critterDisplayData sampleState !! k = Some r
           ∧ critter r = herbivore 1 45 45
           ∧ (distance sampleCanvas sampleView (222 - 0) (223 - 0) r
              < Q2R (CRITTER_DRAW_RADIUS + CRITTER_CLICK_TOLERANCE))%R.
Proof.
  assert (selectedCritter
            (handleCanvasClick sampleCanvas (mkClick 222 223) sampleState)
          = Some (herbivore 1 45 45)) as Hsel by (by vm_compute).
  split; [exact Hsel|].
  destruct (handleCanvasClick_selects_nearest sampleCanvas (mkClick 222 223)
              sampleState) as (Hmain & _).
  - by eexists.
  - reflexivity.
  - reflexivity.
  - cbn zeta in Hmain. rewrite Hsel in Hmain.
    destruct Hmain as (k & r & Hk & Hc & Hd & _).
    exists k, r. split; [exact Hk|]. split; [exact Hc | exact Hd].
Defined.

(** ** Histogram binning *)

Section Binning.

Variables (binSize maxVal : Z).
Hypothesis binSize_pos : 0 < binSize.

Implicit Types (h : Histogram) (i : Z) (fuel : nat).

(** The first loop makes the bins that remain from [i] on, all empty, as
    soon as the fuel covers the distance to [maxVal]. *)
Lemma pushBins_data fuel : ∀ i h,
  (Z.to_nat (maxVal - i) <= fuel)%nat →
  data (pushBins fuel i binSize maxVal h)
  = data h ++ replicate (Z.to_nat ((maxVal - i + binSize - 1) / binSize)) 0.
Proof.
  induction fuel as [|fuel IH]; intros i h Hfuel; cbn [pushBins].
  - assert (maxVal - i <= 0) as Hle by lia.
    assert ((maxVal - i + binSize - 1) / binSize <= 0) as Hq.
    { apply Z.lt_succ_r, Z.div_lt_upper_bound; lia. }
    replace (Z.to_nat _) with 0%nat by lia. by rewrite app_nil_r.
  - destruct (i <? maxVal) eqn:Hi.
    + apply Z.ltb_lt in Hi. rewrite IH by lia. cbn [data].
      replace (maxVal - i + binSize - 1)
        with ((maxVal - (i + binSize) + binSize - 1) + 1 * binSize) by lia.
      rewrite Z.div_add by lia.
      assert (0 <= (maxVal - (i + binSize) + binSize - 1) / binSize) as Hq.
      { apply Z.div_pos; lia. }
      rewrite Z2Nat.inj_add by lia.
      rewrite Nat.add_comm. cbn [Z.to_nat Pos.to_nat Pos.iter_op Nat.add replicate].
      by rewrite <- app_assoc.
    + apply Z.ltb_ge in Hi.
      assert ((maxVal - i + binSize - 1) / binSize <= 0) as Hq.
      { apply Z.lt_succ_r, Z.div_lt_upper_bound; lia. }
      replace (Z.to_nat _) with 0%nat by lia. by rewrite app_nil_r.
Qed.

(** More fuel than the distance to [maxVal] changes nothing: the loop
    has ended by then. *)
Lemma pushBins_fuel fuel : ∀ fuel' i h,
  (Z.to_nat (maxVal - i) <= fuel)%nat → (fuel <= fuel')%nat →
  pushBins fuel' i binSize maxVal h = pushBins fuel i binSize maxVal h.
Proof.
  induction fuel as [|fuel IH]; intros fuel' i h Hfuel Hle.
  - destruct fuel' as [|fuel']; [done|]. cbn [pushBins].
    replace (i <? maxVal) with false; [done|].
    symmetry. apply Z.ltb_ge. lia.
  - destruct fuel' as [|fuel']; [lia|]. cbn [pushBins].
    destruct (i <? maxVal) eqn:Hi; [|done].
    apply Z.ltb_lt in Hi. apply IH; lia.
Qed.

Lemma sumZ_cons (a : Z) (l : list Z) : sumZ (a :: l) = a + sumZ l.
Proof. reflexivity. Qed.

Lemma sumZ_replicate_0 (n : nat) : sumZ (replicate n 0) = 0.
Proof.
  induction n as [|n IH]; [done|].
  cbn [replicate]. rewrite sumZ_cons. lia.
Qed.

Lemma sumZ_alter (l : list Z) : ∀ (j : nat) (count : Z),
  (j < length l)%nat → sumZ (alter (λ n, n + count) j l) = sumZ l + count.
Proof.
  induction l as [|a l IH]; intros j count Hj; cbn in Hj; [lia|].
  destruct j as [|j].
  - change (alter (λ n, n + count) 0%nat (a :: l)) with ((a + count) :: l).
    rewrite !sumZ_cons. lia.
  - change (alter (λ n, n + count) (S j) (a :: l))
      with (a :: alter (λ n, n + count) j l).
    rewrite !sumZ_cons, IH by lia. lia.
Qed.

Lemma countEntry_length (bins : list Z) (entry : string * Z) :
  length (countEntry binSize bins entry) = length bins.
Proof.
  unfold countEntry. destruct (parseInt entry.1) as [value|]; [|done].
  destruct (_ <? _); [|done]. destruct (0 <=? _); [|done].
  apply length_alter.
Qed.

(** An entry adds its count to the sum of the bins exactly when its key
    parses to a value in [[0, binSize * number of bins)]. *)
Lemma countEntry_sum (bins : list Z) (entry : string * Z) :
  sumZ (countEntry binSize bins entry)
  = sumZ bins + countedBelow (binSize * Z.of_nat (length bins)) [entry].
Proof.
  unfold countEntry, countedBelow. cbn [map sumZ foldr].
  destruct (parseInt entry.1) as [value|]; [|lia].
  pose proof (Z.div_mod value binSize ltac:(lia)) as Hdm.
  pose proof (Z.mod_pos_bound value binSize binSize_pos) as Hmod.
  destruct (value / binSize <? Z.of_nat (length bins)) eqn:Hlt.
  - apply Z.ltb_lt in Hlt.
    destruct (0 <=? value / binSize) eqn:Hge.
    + apply Z.leb_le in Hge.
      rewrite sumZ_alter by lia.
      replace (0 <=? value) with true by (symmetry; apply Z.leb_le; nia).
      replace (value <? _) with true by (symmetry; apply Z.ltb_lt; nia).
      cbn. lia.
    + apply Z.leb_gt in Hge.
      replace (0 <=? value) with false by (symmetry; apply Z.leb_gt; nia).
      cbn. lia.
  - apply Z.ltb_ge in Hlt.
    replace (value <? _) with false by (symmetry; apply Z.ltb_ge; nia).
    rewrite andb_false_r. lia.
Qed.

Lemma countedBelow_cons bound (entry : string * Z) (rawData : list (string * Z)) :
  countedBelow bound (entry :: rawData)
  = countedBelow bound [entry] + countedBelow bound rawData.
Proof.
  unfold countedBelow. cbn [map]. rewrite !sumZ_cons.
  change (sumZ []) with 0. lia.
Qed.

Lemma foldl_countEntry (rawData : list (string * Z)) : ∀ bins : list Z,
  length (foldl (countEntry binSize) bins rawData) = length bins
  ∧ sumZ (foldl (countEntry binSize) bins rawData)
    = sumZ bins + countedBelow (binSize * Z.of_nat (length bins)) rawData.
Proof.
  induction rawData as [|entry rawData IH]; intros bins.
  - split; [done|]. unfold countedBelow. cbn [foldl map].
    change (sumZ []) with 0. lia.
  - cbn [foldl]. destruct (IH (countEntry binSize bins entry)) as [Hlen Hsum].
    rewrite Hlen, Hsum, countEntry_length, countEntry_sum.
    split; [done|]. rewrite (countedBelow_cons _ entry rawData). lia.
Qed.

Lemma createHistogramData_length (rawData : list (string * Z)) :
  Z.of_nat (length (data (createHistogramData rawData binSize maxVal)))
  = binCount binSize maxVal.
Proof.
  unfold createHistogramData, binCount.
  replace (binSize <=? 0) with false by (symmetry; apply Z.leb_gt; lia).
  cbn [data]. destruct (foldl_countEntry rawData
    (data (pushBins (Z.to_nat maxVal) 0 binSize maxVal
             {| labels := []; data := [] |}))) as [-> _].
  rewrite pushBins_data by lia. cbn [data app].
  rewrite length_replicate, Z.sub_0_r. lia.
Qed.

End Binning.

Lemma createHistogramData_sum (rawData : list (string * Z)) (binSize maxVal : Z) :
  0 < binSize →
  sumZ (data (createHistogramData rawData binSize maxVal))
  = countedBelow (binSize * binCount binSize maxVal) rawData.
Proof.
  intros Hpos.
  rewrite <- (createHistogramData_length binSize maxVal Hpos rawData).
  unfold createHistogramData.
  replace (binSize <=? 0) with false by (symmetry; apply Z.leb_gt; lia).
  cbn [data].
  destruct (foldl_countEntry binSize Hpos rawData
    (data (pushBins (Z.to_nat maxVal) 0 binSize maxVal
             {| labels := []; data := [] |}))) as [-> ->].
  rewrite pushBins_data by lia. cbn [data app].
  rewrite sumZ_replicate_0. lia.
Qed.

(** C4. The reference vector: bins of width 10 up to 101 over
    [{5: 2, 15: 3, 95: 1}] are the 11 = ceil(101 / 10) bins "0-9" to
    "100-109" in order, with count 2 in the bin from 0, 3 in the bin from
    10, 1 in the bin from 90 and 0 in every other bin. *)
Theorem createHistogramData_reference :
  let h := createHistogramData [("5", 2); ("15", 3); ("95", 1)] 10 101 in
  labels h = ["0-9"; "10-19"; "20-29"; "30-39"; "40-49"; "50-59"; "60-69";
              "70-79"; "80-89"; "90-99"; "100-109"]
  ∧ data h = [2; 3; 0; 0; 0; 0; 0; 0; 0; 1; 0]
  ∧ length (data h) = 11%nat
  ∧ binCount 10 101 = 11.
Proof. vm_compute. by repeat split. Qed.

(** C8, as the claim states it, fails: the bins of width 10 up to 101
    end with "100-109", and the value 105, which is not below the upper
    bound 101, is counted there. And a value below the upper bound is not
    always counted: the index of -5 is -1, which is below [data.length] and
    names no bin. *)
Lemma dropped_values_counterexample :
  let h := createHistogramData [("105", 1)] 10 101 in
  let h' := createHistogramData [("-5", 1)] 10 101 in
  parseInt "105" = Some 105
  ∧ 101 <= 105
  ∧ data h !! 10%nat = Some 1
  ∧ sumZ (data h) = 1
  ∧ countedBelow 101 [("105", 1)] = 0
  ∧ sumZ (data h) ≠ countedBelow 101 [("105", 1)]
  ∧ parseInt "-5" = Some (-5)
  ∧ -5 < 101
  ∧ sumZ (data h') = 0.
Proof. vm_compute. repeat split; congruence. Qed.

(** C8, amended. For a positive bin width there are
    [binCount = ceil(maxVal / binSize)] bins, which reach up to
    [binSize * binCount], at or above [maxVal]; an entry is counted exactly
    when its key parses to a value in [[0, binSize * binCount)], so the sum
    of the bins is the sum of the counts of those entries, and values from
    [binSize * binCount] on are dropped. When the width divides a
    non-negative upper bound, the limit is the upper bound itself. *)
Theorem createHistogramData_counts
    (rawData : list (string * Z)) (binSize maxVal : Z) :
  0 < binSize →
  let h := createHistogramData rawData binSize maxVal in
  let limit := binSize * binCount binSize maxVal in
  Z.of_nat (length (data h)) = binCount binSize maxVal
  ∧ sumZ (data h) = countedBelow limit rawData
  ∧ maxVal <= limit
  ∧ ((binSize | maxVal) → 0 <= maxVal → limit = maxVal).
Proof.
  intros Hpos h limit. subst h limit.
  split; [by apply createHistogramData_length|].
  split; [by apply createHistogramData_sum|].
  unfold binCount.
  pose proof (Z.div_mod (maxVal + binSize - 1) binSize ltac:(lia)) as Hdm.
  pose proof (Z.mod_pos_bound (maxVal + binSize - 1) binSize Hpos) as Hmod.
  split; [nia|].
  intros [q Hq] Hnn. subst maxVal.
  replace (q * binSize + binSize - 1) with (binSize - 1 + q * binSize) by lia.
  rewrite Z.div_add, Z.div_small by lia. nia.
Qed.

Lemma createHistogramData_counts_witness :
  sumZ (data (createHistogramData [("105", 1); ("5", 2); ("110", 4)] 10 101))
  = countedBelow (10 * binCount 10 101) [("105", 1); ("5", 2); ("110", 4)]
  ∧ countedBelow (10 * binCount 10 101) [("105", 1); ("5", 2); ("110", 4)] = 3.
Proof.
  split; [|vm_compute; reflexivity].
  apply (createHistogramData_counts [("105", 1); ("5", 2); ("110", 4)] 10 101).
  lia.
Defined.

(** ** Threshold colouring *)

(** The colour callback of drawDistributionChart classifies the lower
    bound of a label against the two thresholds in the direction that
    [lowIsBad] gives. *)
Lemma distributionColor_classifies
    (lowIsBad : bool) (criticalThreshold warningThreshold lowerBound : Z)
    (label : string) :
  parseInt (splitHead label) = Some lowerBound →
  distributionColor lowIsBad criticalThreshold warningThreshold label
  = if lowIsBad
    then if decide (lowerBound <= criticalThreshold) then CRITICAL
         else if decide (lowerBound <= warningThreshold) then WARNING
         else GOOD
    else if decide (lowerBound >= criticalThreshold) then CRITICAL
         else if decide (lowerBound >= warningThreshold) then WARNING
         else GOOD.
Proof.
  intros Hlb. unfold distributionColor, classify, numLe, numGe. rewrite Hlb.
  destruct lowIsBad.
  - destruct (Z.leb_spec lowerBound criticalThreshold);
      destruct (Z.leb_spec lowerBound warningThreshold);
      repeat case_decide; (done || lia).
  - destruct (Z.leb_spec criticalThreshold lowerBound);
      destruct (Z.leb_spec warningThreshold lowerBound);
      repeat case_decide; (done || lia).
Qed.

Lemma distributionColor_reference :
  distributionColor true 10 30 "5-14" = CRITICAL
  ∧ distributionColor true 10 30 "20-29" = WARNING
  ∧ distributionColor true 10 30 "50-59" = GOOD
  ∧ distributionColor false 50 30 "50-59" = CRITICAL
  ∧ distributionColor false 50 30 "30-39" = WARNING
  ∧ distributionColor false 50 30 "0-9" = GOOD.
Proof. vm_compute. by repeat split. Qed.

Lemma createHistogramData_labels (rawData : list (string * Z)) (binSize maxVal : Z) :
  labels (createHistogramData rawData binSize maxVal)
  = labels (createHistogramData [] binSize maxVal).
Proof. unfold createHistogramData. by destruct (binSize <=? 0). Qed.

(** C3, on the per-species energy chart: the colour callback compares
    the label, a string such as "0-9", with the thresholds; the string
    converts to NaN, both comparisons are false, and all 11 bars get the
    good colour whatever the thresholds and the distribution are. With a
    critical threshold of 10 the bin from 0 is coloured good, where the
    callback of drawDistributionChart, which parses the lower bound, gives
    critical. *)
Theorem energy_colour_compares_label :
  (∀ (CRITICAL_ENERGY ENERGY_TO_START_RESTING : Z)
     (distribution : list (string * Z)),
     (energyChartBars CRITICAL_ENERGY ENERGY_TO_START_RESTING distribution).*2
     = replicate 11 GOOD)
  ∧ energyChartBars 10 30 [("5", 2); ("15", 3); ("95", 1)] !! 0%nat
    = Some ("0-9", 2, GOOD)
  ∧ distributionColor true 10 30 "0-9" = CRITICAL.
Proof.
  split; [|split; vm_compute; reflexivity].
  intros crit start distribution. unfold energyChartBars. cbn zeta.
  assert (length (data (createHistogramData distribution 10 101)) = 11%nat)
    as Hdata.
  { assert (0 < 10) as Hpos by lia.
    pose proof (createHistogramData_length 10 101 Hpos distribution) as H.
    change (binCount 10 101) with 11 in H. lia. }
  rewrite createHistogramData_labels.
  change (labels (createHistogramData [] 10 101))
    with ["0-9"; "10-19"; "20-29"; "30-39"; "40-49"; "50-59"; "60-69";
          "70-79"; "80-89"; "90-99"; "100-109"].
  rewrite snd_zip.
  - unfold energyBackgroundColor. cbn [map].
    repeat match goal with
           | |- context [toNumber ?l] =>
               change (toNumber l) with NaN
           end.
    reflexivity.
  - rewrite length_zip, Hdata. apply Nat.leb_le. reflexivity.
Qed.

(** * Further properties of the map page *)

(** ** Manual update *)

Section Seed.

Implicit Types (data : gmap Z DisplayRecord) (cs : list Critter) (k : Z).

Lemma foldl_spawn_lookup cs : ∀ data k,
  foldl (λ data c, <[c_id c := spawn c]> data) data cs !! k
  = match last (filter (λ c, c_id c = k) cs) with
    | Some c => Some (spawn c)
    | None => data !! k
    end.
Proof.
  induction cs as [|c cs IH]; intros data k; [done|].
  cbn [foldl]. rewrite IH, filter_cons.
  destruct (decide (c_id c = k)) as [<-|Hne].
  - rewrite last_cons.
    destruct (last (filter _ cs)); [done|]. by rewrite lookup_insert_eq.
  - destruct (last (filter _ cs)); [done|]. by rewrite lookup_insert_ne.
Qed.

Lemma seed_lookup cs k :
  seed cs !! k = spawn <$> last (filter (λ c, c_id c = k) cs).
Proof.
  unfold seed. rewrite foldl_spawn_lookup.
  by destruct (last (filter _ cs)).
Qed.

Lemma filter_id_last cs k :
  k ∈ liveCritterIds cs → is_Some (last (filter (λ c, c_id c = k) cs)).
Proof.
  intros (c & Hc & Hid)%elem_of_liveCritterIds.
  destruct (last (filter (λ c, c_id c = k) cs)) as [c'|] eqn:Hlast;
    [by eexists|].
  apply last_None in Hlast.
  assert (c ∈ filter (λ c, c_id c = k) cs) as Hin
    by (by apply list_elem_of_filter).
  rewrite Hlast in Hin. by apply not_elem_of_nil in Hin.
Qed.

Lemma seed_dom cs : dom (seed cs) = liveCritterIds cs.
Proof.
  apply set_eq. intros k. rewrite elem_of_dom, seed_lookup.
  destruct (decide (k ∈ liveCritterIds cs)) as [Hk|Hk].
  - split; [done|]. intros _.
    destruct (filter_id_last cs k Hk) as [c ->]. by eexists.
  - rewrite filter_id_nil by done. split; [by intros [? ?]|done].
Qed.

Lemma seed_inSync cs : inSync cs (seed cs).
Proof.
  split; [apply seed_dom|]. intros k r. rewrite seed_lookup.
  destruct (last (filter _ cs)) as [c|]; [|done].
  intros [= <-]. by exists c.
Qed.

End Seed.

(** X1. A manual update whose two fetches succeed replaces the cache by
    one record per fetched id, whatever the cache held before: the keys
    are the fetched ids, and every record holds a fetched critter of its
    key as snapshot and stands at that critter's position, current and
    target alike. *)
Theorem handleManualUpdate_seeds
    (s : State) (input : View) (tiles : list Tile) (critters : list Critter) :
  let s' := handleManualUpdate input (Fulfilled tiles) (Fulfilled critters) s in
  currentTerrainData s' = Some tiles
  ∧ currentView s' = input
  ∧ selectedCritter s' = selectedCritter s
  ∧ dom (critterDisplayData s') = list_to_set (c_id <$> critters)
  ∧ ∀ k r, critterDisplayData s' !! k = Some r →
      critter r ∈ critters ∧ c_id (critter r) = k
      ∧ currentX r = c_x (critter r) ∧ currentY r = c_y (critter r)
      ∧ targetX r = c_x (critter r) ∧ targetY r = c_y (critter r).
Proof.
  cbn zeta. split; [done|]. split; [done|]. split; [done|].
  split; [apply seed_dom|]. cbn. intros k r Hr.
  rewrite seed_lookup in Hr.
  destruct (last (filter _ critters)) as [c|] eqn:Hlast; [|done].
  injection Hr as <-. apply last_Some_elem_of in Hlast.
  apply list_elem_of_filter in Hlast as [Hid Hin]. by repeat split.
Qed.

Lemma handleManualUpdate_seeds_witness :
  ∃ r, critterDisplayData
         (handleManualUpdate sampleView (Fulfilled [])
            (Fulfilled [herbivore 7 41 42]) sampleState) !! 7 = Some r
       ∧ currentX r = 41%Q ∧ targetX r = 41%Q.
Proof.
  exists (spawn (herbivore 7 41 42)). split; [reflexivity|].
  destruct (handleManualUpdate_seeds sampleState sampleView []
              [herbivore 7 41 42]) as (_ & _ & _ & _ & Hrec).
  destruct (Hrec 7 (spawn (herbivore 7 41 42))) as (_ & _ & Hx & _ & Htx & _);
    [reflexivity|].
  split; [exact Hx | exact Htx].
Defined.

(** X2. A live update that fetches the list a manual update has just
    shown changes nothing in the cache. *)
Theorem live_after_manual_same_list
    (s : State) (input : View) (tiles : list Tile) (critters : list Critter)
    (season : Fetch string) :
  let s1 := handleManualUpdate input (Fulfilled tiles) (Fulfilled critters) s in
  critterDisplayData (handleLiveUpdate (Fulfilled critters) season s1)
  = critterDisplayData s1.
Proof.
  cbn zeta. rewrite handleLiveUpdate_display by (by eexists).
  apply reconcile_fixed. cbn. apply seed_inSync.
Qed.

(** ** Invariants over every sequence of events *)

Section Invariants.

Implicit Types (s : State) (e : Event) (events : list Event).

Lemma run_app events1 events2 s :
  run (events1 ++ events2) s = run events2 (run events1 s).
Proof. unfold run. by rewrite foldl_app. Qed.

Lemma run_snoc events e s : run (events ++ [e]) s = handle e (run events s).
Proof. by rewrite run_app. Qed.

Lemma animationLoop_terrain s :
  currentTerrainData (animationLoop s) = currentTerrainData s.
Proof.
  unfold animationLoop. cbn.
  destruct (selectedCritter s) as [sel|]; [|done].
  by destruct ((advance <$> critterDisplayData s) !! c_id sel).
Qed.

Lemma handleCanvasClick_terrain cv event s :
  currentTerrainData (handleCanvasClick cv event s) = currentTerrainData s.
Proof.
  unfold handleCanvasClick.
  destruct (currentTerrainData s) as [tiles|] eqn:Ht; [|done]. cbn zeta.
  destruct (hitScan _ _ _ _ _) as [[c|] m]; by cbn.
Qed.

(** The map, once loaded, stays loaded. *)
Lemma handle_loaded e s :
  is_Some (currentTerrainData s) → is_Some (currentTerrainData (handle e s)).
Proof.
  intros Hs. destruct e as [input terrain resp|resp season|cv event|]; cbn.
  - destruct terrain as [err|tiles]; [done|]. by destruct resp; eexists.
  - by rewrite handleLiveUpdate_terrain.
  - by rewrite handleCanvasClick_terrain.
  - by rewrite animationLoop_terrain.
Qed.

Lemma wellKeyed_reconcile (cs : list Critter) (data : gmap Z DisplayRecord) :
  wellKeyed (reconcile cs data).
Proof.
  intros k r Hr. destruct (reconcile_inSync cs data) as [_ Hrec].
  destruct (Hrec k r Hr) as (c & Hlast & _ & _ & ->).
  apply last_Some_elem_of in Hlast.
  by apply list_elem_of_filter in Hlast as [? _].
Qed.

Lemma wellKeyed_seed (cs : list Critter) : wellKeyed (seed cs).
Proof.
  intros k r Hr. destruct (seed_inSync cs) as [_ Hrec].
  destruct (Hrec k r Hr) as (c & Hlast & _ & _ & ->).
  apply last_Some_elem_of in Hlast.
  by apply list_elem_of_filter in Hlast as [? _].
Qed.

Lemma wellKeyed_advance (data : gmap Z DisplayRecord) :
  wellKeyed data → wellKeyed (advance <$> data).
Proof.
  intros Hw k r. rewrite lookup_fmap.
  destruct (data !! k) as [r0|] eqn:Hr0; [|done].
  intros [= <-]. exact (Hw k r0 Hr0).
Qed.

Lemma handleCanvasClick_display cv event s :
  critterDisplayData (handleCanvasClick cv event s) = critterDisplayData s.
Proof.
  unfold handleCanvasClick.
  destruct (currentTerrainData s) as [tiles|]; [|done]. cbn zeta.
  destruct (hitScan _ _ _ _ _) as [[c|] m]; by cbn.
Qed.

Lemma handle_wellKeyed e s :
  wellKeyed (critterDisplayData s) →
  wellKeyed (critterDisplayData (handle e s)).
Proof.
  intros Hw. destruct e as [input terrain resp|resp season|cv event|]; cbn.
  - destruct terrain as [err|tiles]; [done|].
    destruct resp as [err|cs]; [done|]. apply wellKeyed_seed.
  - unfold handleLiveUpdate.
    destruct (currentTerrainData s); [|done].
    rewrite updateSeasonDisplay_display.
    destruct resp as [err|cs]; [done|]. apply wellKeyed_reconcile.
  - by rewrite handleCanvasClick_display.
  - rewrite animationLoop_display. by apply wellKeyed_advance.
Qed.

Lemma handle_blankUntilLoaded e s :
  blankUntilLoaded s → blankUntilLoaded (handle e s).
Proof.
  intros [Hs|[Hd Hsel]]; [left; by apply handle_loaded|].
  destruct (currentTerrainData s) as [tiles|] eqn:Ht;
    [left; apply handle_loaded; rewrite Ht; by eexists|].
  destruct e as [input terrain resp|resp season|cv event|]; cbn.
  - destruct terrain as [err|tiles]; [by right|]. left. by destruct resp; eexists.
  - right. unfold handleLiveUpdate. by rewrite Ht.
  - right. unfold handleCanvasClick. by rewrite Ht.
  - right. unfold animationLoop. cbn. rewrite Hsel, Hd. by rewrite fmap_empty.
Qed.

Lemma handle_panelShowsSelection e s :
  panelShowsSelection s → panelShowsSelection (handle e s).
Proof.
  intros [Hp He]. unfold panelShowsSelection.
  destruct e as [input terrain resp|resp season|cv event|]; cbn [handle].
  - destruct terrain as [err|tiles]; [done|]. by destruct resp.
  - destruct (handleLiveUpdate_selected resp season s) as (-> & -> & ->). done.
  - unfold handleCanvasClick.
    destruct (currentTerrainData s); [|done]. cbn zeta.
    by destruct (hitScan _ _ _ _ _) as [[c|] m].
  - unfold animationLoop.
    destruct s as [t v d sel p el se u l]. cbn in *. subst p el.
    destruct sel as [sel|]; [|done].
    by destruct ((advance <$> d) !! c_id sel).
Qed.

(** An event that is no click keeps the id of the selection, on a cache
    that is keyed by id. *)
Lemma handle_selected_id e s :
  isClick e = false → wellKeyed (critterDisplayData s) →
  c_id <$> selectedCritter (handle e s) = c_id <$> selectedCritter s.
Proof.
  intros Hclick Hw. destruct e as [input terrain resp|resp season|cv event|];
    cbn [handle isClick] in *; [| |done|].
  - destruct terrain as [err|tiles]; [done|]. by destruct resp.
  - by destruct (handleLiveUpdate_selected resp season s) as (-> & _).
  - unfold animationLoop.
    destruct s as [t v d sel p el se u l]. cbn in *.
    destruct sel as [sel|]; [|done].
    destruct ((advance <$> d) !! c_id sel) as [r|] eqn:Hr; [|done].
    cbn. f_equal. exact (wellKeyed_advance _ Hw _ _ Hr).
Qed.

End Invariants.

Lemma run_invariant (P : State → Prop) (view : View) (events : list Event) :
  P (initialState view) → (∀ e s, P s → P (handle e s)) →
  P (run events (initialState view)).
Proof.
  intros Hinit Hstep. induction events as [|e events IH] using rev_ind;
    [done|].
  rewrite run_snoc. by apply Hstep.
Qed.

Lemma run_wellKeyed (view : View) (events : list Event) :
  wellKeyed (critterDisplayData (run events (initialState view))).
Proof.
  apply (run_invariant (λ s, wellKeyed (critterDisplayData s))).
  - intros k r Hr. cbn in Hr. by rewrite lookup_empty in Hr.
  - intros e s. apply handle_wellKeyed.
Qed.

(** X3. Whatever events the page has handled since it was opened, every
    record of the cache is stored under the id of its own snapshot. *)
Theorem cache_keyed_by_id (view : View) (events : list Event) (k : Z)
    (r : DisplayRecord) :
  critterDisplayData (run events (initialState view)) !! k = Some r →
  c_id (critter r) = k.
Proof. apply run_wellKeyed. Qed.

Lemma cache_keyed_by_id_witness :
  c_id (critter (advance (spawn (herbivore 7 41 42)))) = 7.
Proof.
  apply (cache_keyed_by_id sampleView
           [ManualUpdate sampleView (Fulfilled []) (Fulfilled [herbivore 7 41 42]);
            Frame]
           7 (advance (spawn (herbivore 7 41 42)))).
  reflexivity.
Defined.

(** X4. Until a terrain fetch has succeeded the cache is empty and nothing
    is selected, whatever events were handled; and the terrain, once
    loaded, stays loaded through every later event. *)
Theorem blank_until_loaded (view : View) (events later : list Event) :
  let s := run events (initialState view) in
  (is_Some (currentTerrainData s)
   ∨ (critterDisplayData s = ∅ ∧ selectedCritter s = None))
  ∧ (is_Some (currentTerrainData s) →
     is_Some (currentTerrainData (run later s))).
Proof.
  cbn zeta. split.
  - apply (run_invariant blankUntilLoaded).
    + by right.
    + apply handle_blankUntilLoaded.
  - intros Hs. induction later as [|e later IH] using rev_ind; [done|].
    rewrite run_snoc. by apply handle_loaded.
Qed.

Lemma blank_until_loaded_witness :
  is_Some (currentTerrainData
             (run [Frame; LiveUpdate (Rejected "offline") (Rejected "offline")]
                  (run [ManualUpdate sampleView (Fulfilled []) (Rejected "offline")]
                       (initialState sampleView)))).
Proof.
  apply (blank_until_loaded sampleView
           [ManualUpdate sampleView (Fulfilled []) (Rejected "offline")]
           [Frame; LiveUpdate (Rejected "offline") (Rejected "offline")]).
  by eexists.
Defined.

(** X5. From a click on the loaded map on, whatever events follow, the
    detail panel shows the selected critter (or the default message when
    nothing is selected) and the event log is the one requested for the
    selected critter. *)
Theorem panel_shows_selection
    (s : State) (cv : Canvas) (event : MouseEvent) (later : list Event) :
  is_Some (currentTerrainData s) →
  let s' := run later (handleCanvasClick cv event s) in
  statsContent s' = selectedCritter s'
  ∧ eventLogFor s' = c_id <$> selectedCritter s'.
Proof.
  intros [tiles Hloaded]. cbn zeta.
  induction later as [|e later IH] using rev_ind.
  - unfold run, handleCanvasClick. cbn [foldl]. rewrite Hloaded. cbn zeta.
    by destruct (hitScan _ _ _ _ _) as [[c|] m].
  - rewrite run_snoc. by apply handle_panelShowsSelection.
Qed.

Lemma panel_shows_selection_witness :
  let s' := run [Frame; LiveUpdate (Fulfilled []) (Fulfilled "SPRING")]
              (handleCanvasClick sampleCanvas (mkClick 220 220) sampleState) in
  statsContent s' = selectedCritter s'
  ∧ eventLogFor s' = c_id <$> selectedCritter s'.
Proof.
  apply (panel_shows_selection sampleState sampleCanvas (mkClick 220 220)
           [Frame; LiveUpdate (Fulfilled []) (Fulfilled "SPRING")]).
  by eexists.
Defined.

(** X6. Only a click changes which critter is selected: through manual
    updates, live updates and frames the id of the selection stays what
    it was, also when the critter leaves the cache and comes back. *)
Theorem selection_changes_only_by_click
    (view : View) (events later : list Event) :
  Forall (λ e, isClick e = false) later →
  let s := run events (initialState view) in
  c_id <$> selectedCritter (run later s) = c_id <$> selectedCritter s.
Proof.
  intros Hlater. cbn zeta.
  induction later as [|e later IH] using rev_ind; [done|].
  apply Forall_app in Hlater as [Hlater [He _]%Forall_cons].
  rewrite run_snoc, handle_selected_id, IH; [done..|].
  rewrite <- run_app. apply run_wellKeyed.
Qed.

(** Critter 1 is clicked, leaves the view, comes back with new data and a
    frame is drawn: the selection is still critter 1. *)
Lemma selection_changes_only_by_click_witness :
  c_id <$> selectedCritter
    (run [LiveUpdate (Fulfilled []) (Fulfilled "SPRING");
          LiveUpdate (Fulfilled [herbivore 1 44 44]) (Fulfilled "SPRING");
          Frame]
       (run [ManualUpdate sampleView (Fulfilled []) (Fulfilled [herbivore 1 45 45]);
             CanvasClick sampleCanvas (mkClick 220 220)]
            (initialState sampleView)))
  = Some 1.
Proof.
  rewrite (selection_changes_only_by_click sampleView
             [ManualUpdate sampleView (Fulfilled []) (Fulfilled [herbivore 1 45 45]);
              CanvasClick sampleCanvas (mkClick 220 220)]
             [LiveUpdate (Fulfilled []) (Fulfilled "SPRING");
              LiveUpdate (Fulfilled [herbivore 1 44 44]) (Fulfilled "SPRING");
              Frame]).
  - vm_compute. reflexivity.
  - repeat constructor.
Defined.

(** * Further properties of the statistics page *)

(** ** What a bin holds *)

Section Bins.

Variables (binSize maxVal : Z).
Hypothesis binSize_pos : 0 < binSize.

Implicit Types (h : Histogram) (i : Z) (fuel : nat) (rawData : list (string * Z)).

Lemma pushBins_labels fuel : ∀ i h,
  (Z.to_nat (maxVal - i) <= fuel)%nat →
  labels (pushBins fuel i binSize maxVal h)
  = labels h
    ++ ((λ j, binLabel (i + j * binSize) (i + j * binSize + binSize - 1))
        <$> seqZ 0 ((maxVal - i + binSize - 1) / binSize)).
Proof.
  induction fuel as [|fuel IH]; intros i h Hfuel; cbn [pushBins].
  - rewrite seqZ_nil, app_nil_r; [done|].
    apply Z.lt_succ_r, Z.div_lt_upper_bound; lia.
  - destruct (i <? maxVal) eqn:Hi.
    + apply Z.ltb_lt in Hi. rewrite IH by lia. cbn [labels].
      replace (maxVal - i + binSize - 1)
        with ((maxVal - (i + binSize) + binSize - 1) + 1 * binSize) by lia.
      rewrite Z.div_add by lia.
      set (n := (maxVal - (i + binSize) + binSize - 1) / binSize).
      assert (0 <= n) as Hn by (apply Z.div_pos; lia).
      rewrite (seqZ_cons 0 (n + 1)) by lia.
      replace (Z.pred (n + 1)) with n by lia.
      replace (Z.succ 0) with (1 + 0) by lia.
      rewrite <- fmap_add_seqZ, fmap_cons, <- list_fmap_compose, <- app_assoc.
      cbn [app]. f_equal. f_equal; [f_equal; lia|].
      apply list_fmap_ext. intros _ j _. cbn. f_equal; lia.
    + apply Z.ltb_ge in Hi. rewrite seqZ_nil, app_nil_r; [done|].
      apply Z.lt_succ_r, Z.div_lt_upper_bound; lia.
Qed.

(** An entry adds its count to the bin whose index is [value / binSize],
    and to no other. *)
Lemma countEntry_lookup (bins : list Z) (entry : string * Z) (j : nat) :
  (j < length bins)%nat →
  countEntry binSize bins entry !! j
  = (λ n, n + countedIn (Z.of_nat j * binSize)
                        (Z.of_nat j * binSize + binSize - 1) [entry])
    <$> bins !! j.
Proof.
  intros Hj. unfold countEntry, countedIn. cbn [map].
  rewrite sumZ_cons. change (sumZ []) with 0.
  destruct (bins !! j) as [n|] eqn:Hn;
    [|apply lookup_ge_None in Hn; lia].
  destruct (parseInt entry.1) as [value|];
    [|rewrite Hn; cbn; f_equal; lia].
  pose proof (Z.div_mod value binSize ltac:(lia)) as Hdm.
  pose proof (Z.mod_pos_bound value binSize binSize_pos) as Hmod.
  destruct (decide (value / binSize = Z.of_nat j)) as [Heq|Hne].
  - replace (value / binSize <? Z.of_nat (length bins)) with true
      by (symmetry; apply Z.ltb_lt; lia).
    replace (0 <=? value / binSize) with true
      by (symmetry; apply Z.leb_le; lia).
    rewrite Heq, Nat2Z.id, list_lookup_alter_eq, Hn. cbn.
    replace (Z.of_nat j * binSize <=? value) with true
      by (symmetry; apply Z.leb_le; nia).
    replace (value <=? Z.of_nat j * binSize + binSize - 1) with true
      by (symmetry; apply Z.leb_le; nia).
    cbn. f_equal. lia.
  - assert ((Z.of_nat j * binSize <=? value)
            && (value <=? Z.of_nat j * binSize + binSize - 1) = false) as ->.
    { apply andb_false_iff.
      destruct (Z.leb_spec (Z.of_nat j * binSize) value); [right|by left].
      apply Z.leb_gt. destruct (Z_lt_le_dec (value / binSize) (Z.of_nat j)); nia. }
    destruct (value / binSize <? Z.of_nat (length bins));
      [|rewrite Hn; cbn; f_equal; lia].
    destruct (0 <=? value / binSize) eqn:Hge;
      [|rewrite Hn; cbn; f_equal; lia].
    apply Z.leb_le in Hge.
    rewrite list_lookup_alter_ne, Hn by lia. cbn. f_equal. lia.
Qed.

Lemma countedIn_cons low high (entry : string * Z) rawData :
  countedIn low high (entry :: rawData)
  = countedIn low high [entry] + countedIn low high rawData.
Proof.
  unfold countedIn. cbn [map]. rewrite !sumZ_cons.
  change (sumZ []) with 0. lia.
Qed.

Lemma foldl_countEntry_lookup rawData : ∀ (bins : list Z) (j : nat),
  (j < length bins)%nat →
  foldl (countEntry binSize) bins rawData !! j
  = (λ n, n + countedIn (Z.of_nat j * binSize)
                        (Z.of_nat j * binSize + binSize - 1) rawData)
    <$> bins !! j.
Proof.
  induction rawData as [|entry rawData IH]; intros bins j Hj.
  - cbn [foldl]. unfold countedIn. cbn [map]. change (sumZ []) with 0.
    destruct (bins !! j); cbn; [f_equal; lia|done].
  - cbn [foldl]. rewrite IH by (by rewrite countEntry_length).
    rewrite countEntry_lookup by done.
    rewrite (countedIn_cons _ _ entry rawData).
    destruct (bins !! j); cbn; [f_equal; lia|done].
Qed.

Lemma createHistogramData_bin rawData (j : nat) :
  Z.of_nat j < binCount binSize maxVal →
  labels (createHistogramData rawData binSize maxVal) !! j
  = Some (binLabel (Z.of_nat j * binSize) (Z.of_nat j * binSize + binSize - 1))
  ∧ data (createHistogramData rawData binSize maxVal) !! j
    = Some (countedIn (Z.of_nat j * binSize)
                      (Z.of_nat j * binSize + binSize - 1) rawData).
Proof.
  intros Hj. unfold binCount in Hj. unfold createHistogramData.
  replace (binSize <=? 0) with false by (symmetry; apply Z.leb_gt; lia).
  cbn [labels data]. split.
  - rewrite pushBins_labels by lia. cbn [labels app].
    rewrite list_lookup_fmap, Z.sub_0_r, lookup_seqZ_lt by lia. cbn.
    repeat f_equal; lia.
  - assert (data (pushBins (Z.to_nat maxVal) 0 binSize maxVal
                       {| labels := []; data := [] |})
            = replicate (Z.to_nat ((maxVal + binSize - 1) / binSize)) 0) as Hd.
    { rewrite pushBins_data by lia. cbn [data app]. by rewrite Z.sub_0_r. }
    rewrite Hd, foldl_countEntry_lookup by (rewrite length_replicate; lia).
    rewrite lookup_replicate_2 by lia. cbn. by rewrite Z.add_0_l.
Qed.

End Bins.

Lemma countedIn_perm low high (rawData rawData' : list (string * Z)) :
  rawData ≡ₚ rawData' → countedIn low high rawData = countedIn low high rawData'.
Proof.
  induction 1 as [|entry l l' _ IH|e1 e2 l|l1 l2 l3 _ IH1 _ IH2].
  - done.
  - by rewrite (countedIn_cons _ _ entry l), (countedIn_cons _ _ entry l'), IH.
  - rewrite (countedIn_cons _ _ e2 (e1 :: l)), (countedIn_cons _ _ e1 l),
      (countedIn_cons _ _ e1 (e2 :: l)), (countedIn_cons _ _ e2 l). lia.
  - by rewrite IH1.
Qed.

(** X7. For a positive bin width, bin [j] of createHistogramData is
    labelled "[j * binSize]-[j * binSize + binSize - 1]" and holds the sum
    of the counts of exactly those entries whose key parses to a value in
    that range; labels and counts have the same length. *)
Theorem bin_holds_its_range
    (rawData : list (string * Z)) (binSize maxVal : Z) (j : nat) :
  0 < binSize → Z.of_nat j < binCount binSize maxVal →
  let h := createHistogramData rawData binSize maxVal in
  let low := Z.of_nat j * binSize in
  labels h !! j = Some (binLabel low (low + binSize - 1))
  ∧ data h !! j = Some (countedIn low (low + binSize - 1) rawData)
  ∧ length (labels h) = length (data h).
Proof.
  intros Hpos Hj. cbn zeta.
  destruct (createHistogramData_bin binSize maxVal Hpos rawData j Hj)
    as [Hl Hd].
  split; [done|]. split; [done|].
  apply Nat2Z.inj. rewrite createHistogramData_length by done.
  unfold createHistogramData, binCount.
  replace (binSize <=? 0) with false by (symmetry; apply Z.leb_gt; lia).
  cbn [labels]. rewrite pushBins_labels by lia. cbn [labels app].
  rewrite length_fmap, length_seqZ, Z.sub_0_r. lia.
Qed.

(** The energy chart of the claims' reference vector: the bin "10-19"
    holds the three critters of energy 15. *)
Lemma bin_holds_its_range_witness :
  data (createHistogramData [("5", 2); ("15", 3); ("95", 1)] 10 101) !! 1%nat
  = Some (countedIn 10 19 [("5", 2); ("15", 3); ("95", 1)])
  ∧ countedIn 10 19 [("5", 2); ("15", 3); ("95", 1)] = 3.
Proof.
  split; [|vm_compute; reflexivity].
  destruct (bin_holds_its_range [("5", 2); ("15", 3); ("95", 1)] 10 101 1)
    as (_ & Hd & _); [lia | vm_compute; reflexivity | exact Hd].
Defined.

(** X8. The histogram does not depend on the order in which
    [Object.entries] lists the distribution. *)
Theorem createHistogramData_order
    (rawData rawData' : list (string * Z)) (binSize maxVal : Z) :
  rawData ≡ₚ rawData' →
  createHistogramData rawData binSize maxVal
  = createHistogramData rawData' binSize maxVal.
Proof.
  intros Hperm. destruct (Z.leb_spec binSize 0) as [Hle|Hpos].
  - unfold createHistogramData.
    by replace (binSize <=? 0) with true by (symmetry; apply Z.leb_le; lia).
  - pose proof (createHistogramData_labels rawData binSize maxVal) as Hl.
    pose proof (createHistogramData_labels rawData' binSize maxVal) as Hl'.
    pose proof (createHistogramData_length binSize maxVal Hpos rawData) as Hn.
    pose proof (createHistogramData_length binSize maxVal Hpos rawData') as Hn'.
    destruct (createHistogramData rawData binSize maxVal) as [l d] eqn:Hh.
    destruct (createHistogramData rawData' binSize maxVal) as [l' d'] eqn:Hh'.
    cbn in *. f_equal; [congruence|].
    apply list_eq. intros j.
    destruct (decide (Z.of_nat j < binCount binSize maxVal)) as [Hj|Hj].
    + destruct (createHistogramData_bin binSize maxVal Hpos rawData j Hj)
        as [_ Hd].
      destruct (createHistogramData_bin binSize maxVal Hpos rawData' j Hj)
        as [_ Hd'].
      rewrite Hh in Hd. rewrite Hh' in Hd'. cbn in Hd, Hd'.
      rewrite Hd, Hd'. f_equal. by apply countedIn_perm.
    + rewrite (lookup_ge_None_2 d), (lookup_ge_None_2 d') by lia. done.
Qed.

Lemma createHistogramData_order_witness :
  createHistogramData [("95", 1); ("5", 2); ("15", 3)] 10 101
  = createHistogramData [("5", 2); ("15", 3); ("95", 1)] 10 101.
Proof.
  apply createHistogramData_order.
  change [("95", 1); ("5", 2); ("15", 3)]
    with ([("95", 1)] ++ [("5", 2); ("15", 3)]).
  change [("5", 2); ("15", 3); ("95", 1)]
    with ([("5", 2); ("15", 3)] ++ [("95", 1)]).
  apply Permutation_app_comm.
Defined.

(** ** The age chart *)

Section AgeChart.

Implicit Types (keys : list string) (distribution : list (string * Z)).

Lemma mathMax_Some (first : Num) (others : list Num) (oldest : Z) :
  mathMax first others = Some oldest →
  ∀ n, n ∈ first :: others → ∃ v, n = Some v ∧ v <= oldest.
Proof.
  unfold mathMax. revert first oldest.
  induction others as [|m others IH]; intros first oldest Hmax n Hn.
  - cbn in Hmax. apply list_elem_of_singleton in Hn as ->.
    exists oldest. split; [done|lia].
  - cbn [foldl] in Hmax.
    destruct first as [a|]; cbn in Hmax.
    2: { exfalso. clear -Hmax. induction others as [|x others IH]; [done|].
         by apply IH. }
    destruct m as [b|]; cbn in Hmax.
    2: { exfalso. clear -Hmax. induction others as [|x others IH]; [done|].
         by apply IH. }
    destruct (IH (Some (Z.max a b)) oldest Hmax (Some (Z.max a b)))
      as (v & [= <-] & Hv); [left|].
    apply elem_of_cons in Hn as [->|Hn].
    + exists a. split; [done|lia].
    + apply elem_of_cons in Hn as [->|Hn].
      * exists b. split; [done|lia].
      * apply (IH (Some (Z.max a b)) oldest Hmax). by right.
Qed.

Lemma maxAge_bounds keys (oldest : Z) (key : string) :
  maxAge keys = Some oldest → key ∈ keys →
  ∃ v, parseInt key = Some v ∧ v <= oldest.
Proof.
  destruct keys as [|k keys]; [by intros _ ?%not_elem_of_nil|].
  cbn [maxAge]. intros Hmax Hkey.
  apply (mathMax_Some _ _ _ Hmax).
  change (parseInt k :: (parseInt <$> keys)) with (parseInt <$> (k :: keys)).
  by apply list_elem_of_fmap_2.
Qed.

Lemma countedBelow_countedIn bound distribution :
  countedBelow bound distribution = countedIn 0 (bound - 1) distribution.
Proof.
  unfold countedBelow, countedIn. f_equal. apply map_ext. intros entry.
  destruct (parseInt entry.1) as [value|]; [|done].
  replace (value <=? bound - 1) with (value <? bound); [done|].
  destruct (Z.ltb_spec value bound), (Z.leb_spec value (bound - 1)); lia.
Qed.

(** Widening the range beyond every value that occurs adds nothing. *)
Lemma countedIn_widen (oldest high : Z) distribution :
  oldest <= high →
  (∀ entry, entry ∈ distribution →
     ∀ v, parseInt entry.1 = Some v → v <= oldest) →
  countedIn 0 high distribution = countedIn 0 oldest distribution.
Proof.
  intros Hhigh Hbound.
  induction distribution as [|entry distribution IH]; [done|].
  rewrite (countedIn_cons _ _ entry distribution),
    (countedIn_cons 0 oldest entry distribution), IH.
  - f_equal. unfold countedIn. cbn [map]. f_equal.
    destruct (parseInt entry.1) as [v|] eqn:Hv; [|done].
    assert (v <= oldest) by (eapply Hbound; [left|done]).
    replace (v <=? high) with true by (symmetry; apply Z.leb_le; lia).
    by replace (v <=? oldest) with true by (symmetry; apply Z.leb_le; lia).
  - intros e He. apply Hbound. by right.
Qed.

(** The bins reach up to [binSize * binCount], at or above [maxVal], and
    exactly to [maxVal] when the width divides it. *)
Lemma binCount_limit (binSize maxVal : Z) :
  0 < binSize →
  maxVal <= binSize * binCount binSize maxVal
  ∧ ((binSize | maxVal) → 0 <= maxVal →
     binSize * binCount binSize maxVal = maxVal).
Proof.
  intros Hpos. unfold binCount.
  pose proof (Z.div_mod (maxVal + binSize - 1) binSize ltac:(lia)) as Hdm.
  pose proof (Z.mod_pos_bound (maxVal + binSize - 1) binSize Hpos) as Hmod.
  split; [nia|].
  intros [q Hq] Hnn. subst maxVal.
  replace (q * binSize + binSize - 1) with (binSize - 1 + q * binSize) by lia.
  rewrite Z.div_add, Z.div_small by lia. nia.
Qed.

End AgeChart.

(** X9. The age chart of one species, with [oldest] the highest age among
    the keys of both species. When [oldest] is below 50 the bin width
    [floor(oldest / 50)] is 0 and the chart has no bin at all. From 50 on,
    the bins sum to the critters of age 0 to [oldest] when the bin width
    does not divide [oldest], and to the critters of age 0 to [oldest - 1]
    when it does: the oldest critters are then left out. *)
Theorem age_chart_drops_oldest
    (distribution : list (string * Z)) (allAgeKeys : list string) (oldest : Z) :
  maxAge allAgeKeys = Some oldest →
  (∀ entry, entry ∈ distribution → entry.1 ∈ allAgeKeys) →
  let h := ageHistogram distribution allAgeKeys in
  (oldest < 50 → h = {| labels := []; data := [] |})
  ∧ (50 <= oldest → (oldest / 50 | oldest) →
     sumZ (data h) = countedIn 0 (oldest - 1) distribution)
  ∧ (50 <= oldest → ¬ (oldest / 50 | oldest) →
     sumZ (data h) = countedIn 0 oldest distribution).
Proof.
  intros Hmax Hkeys. cbn zeta. unfold ageHistogram. rewrite Hmax.
  split; [|split].
  - intros Hyoung. unfold createHistogramData.
    replace (oldest / 50 <=? 0) with true; [done|].
    symmetry. apply Z.leb_le.
    apply Z.lt_succ_r, Z.div_lt_upper_bound; lia.
  - intros Hold Hdiv.
    assert (0 < oldest / 50) as Hpos
      by (apply Z.div_str_pos; lia).
    destruct (binCount_limit (oldest / 50) oldest Hpos) as [_ Hlimit].
    rewrite createHistogramData_sum, Hlimit by (done || lia).
    apply countedBelow_countedIn.
  - intros Hold Hndiv.
    assert (0 < oldest / 50) as Hpos
      by (apply Z.div_str_pos; lia).
    destruct (binCount_limit (oldest / 50) oldest Hpos) as [Hle _].
    rewrite createHistogramData_sum, countedBelow_countedIn by done.
    apply countedIn_widen.
    + assert (oldest / 50 * binCount (oldest / 50) oldest ≠ oldest); [|lia].
      intros Heq. apply Hndiv. exists (binCount (oldest / 50) oldest). lia.
    + intros entry He v Hv.
      destruct (maxAge_bounds allAgeKeys oldest entry.1 Hmax (Hkeys entry He))
        as (v' & Hv' & Hle'). congruence.
Qed.

(** Three critters aged 20 and two aged 75, the oldest age of all: the
    bin width is 1, the bins end at 74 and the chart shows three critters. *)
Lemma age_chart_drops_oldest_witness :
  sumZ (data (ageHistogram [("20", 3); ("75", 2)] ["20"; "75"; "60"]))
  = countedIn 0 74 [("20", 3); ("75", 2)]
  ∧ countedIn 0 74 [("20", 3); ("75", 2)] = 3.
Proof.
  split; [|vm_compute; reflexivity].
  destruct (age_chart_drops_oldest [("20", 3); ("75", 2)] ["20"; "75"; "60"] 75)
    as (_ & Hdrop & _).
  - vm_compute. reflexivity.
  - intros entry He.
    apply elem_of_cons in He as [->|He]; [left|].
    apply elem_of_cons in He as [->|He]; [right; left|].
    by apply not_elem_of_nil in He.
  - apply Hdrop; [lia|]. exists 75. reflexivity.
Defined.

(** ** Integers written and read as decimal strings *)

Section Decimal.

Implicit Types (ds s rest : string) (a : ascii) (acc v : Z).

Lemma string_app_cons a s1 s2 : String a s1 +:+ s2 = String a (s1 +:+ s2).
Proof. reflexivity. Qed.

Lemma string_app_assoc s1 s2 s3 : (s1 +:+ s2) +:+ s3 = s1 +:+ (s2 +:+ s3).
Proof.
  induction s1 as [|a s1 IH]; [done|]. by rewrite !string_app_cons, IH.
Qed.

Lemma string_app_nil_r s : s +:+ "" = s.
Proof. induction s as [|a s IH]; [done|]. by rewrite string_app_cons, IH. Qed.

Lemma string_length_app s1 s2 :
  String.length (s1 +:+ s2) = (String.length s1 + String.length s2)%nat.
Proof.
  induction s1 as [|a s1 IH]; [done|].
  rewrite string_app_cons. cbn [String.length]. by rewrite IH.
Qed.

Lemma digitValue_pretty_N_char (d : N) :
  (d < 10)%N → digitValue 10 (pretty_N_char d) = Some (Z.of_N d).
Proof.
  intros Hd.
  assert (d = 0 ∨ d = 1 ∨ d = 2 ∨ d = 3 ∨ d = 4 ∨ d = 5 ∨ d = 6 ∨ d = 7
          ∨ d = 8 ∨ d = 9)%N as Hcases by lia.
  repeat (destruct Hcases as [->|Hcases]; [reflexivity|]). by subst.
Qed.

Lemma digitsZ_app ds1 : ∀ acc ds2,
  digitsZ acc (ds1 +:+ ds2) = digitsZ acc ds1 ≫= λ v, digitsZ v ds2.
Proof.
  induction ds1 as [|a ds1 IH]; intros acc ds2; [done|].
  rewrite string_app_cons. cbn [digitsZ].
  destruct (digitValue 10 a); [apply IH|done].
Qed.

(** [pretty_N_go x s] puts the decimal digits of [x] before [s]. *)
Lemma pretty_N_go_digits (x : N) : ∀ s,
  ∃ ds, pretty_N_go x s = ds +:+ s
        ∧ (∀ acc, digitsZ acc ds
                  = Some (acc * 10 ^ Z.of_nat (String.length ds) + Z.of_N x))
        ∧ ((0 < x)%N → ds ≠ "").
Proof.
  induction (N.lt_wf_0 x) as [x _ IH]. intros s.
  assert (x = 0 ∨ 0 < x)%N as [->|Hx] by lia.
  - exists "". rewrite pretty_N_go_0. split; [done|]. split; [|lia].
    intros acc. cbn. f_equal. lia.
  - rewrite pretty_N_go_step by done.
    destruct (IH (x `div` 10)%N (N.div_lt x 10 Hx eq_refl)
                (String (pretty_N_char (x `mod` 10)) s))
      as (ds & -> & Hds & _).
    exists (ds +:+ String (pretty_N_char (x `mod` 10)) "").
    split; [by rewrite string_app_assoc|]. split.
    + intros acc. rewrite digitsZ_app, Hds. cbn.
      rewrite digitValue_pretty_N_char by (apply N.mod_lt; lia). cbn.
      f_equal. rewrite string_length_app. cbn [String.length].
      rewrite Nat2Z.inj_add, Z.pow_add_r by lia.
      pose proof (N.div_mod x 10 ltac:(lia)) as Hdm.
      rewrite N2Z.inj_div, N2Z.inj_mod. change (Z.of_N 10) with 10.
      pose proof (Z.div_mod (Z.of_N x) 10 ltac:(lia)). change (10 ^ Z.of_nat 1) with 10.
      lia.
    + intros _. by destruct ds.
Qed.

(** A decimal digit is no white space, no sign and no radix letter. *)
Lemma digit_plain a d :
  digitValue 10 a = Some d →
  isWhiteSpace a = false
  ∧ (∀ rest, stripSign (String a rest) = (1, String a rest))
  ∧ Ascii.eqb a "-" = false
  ∧ Ascii.eqb a "x" = false ∧ Ascii.eqb a "X" = false.
Proof.
  intros Hd. destruct a as [b0 b1 b2 b3 b4 b5 b6 b7].
  destruct b0, b1, b2, b3, b4, b5, b6, b7;
    vm_compute in Hd; try discriminate Hd; by repeat split.
Qed.

Lemma stripHexPrefix_digits acc ds v :
  digitsZ acc ds = Some v → stripHexPrefix ds = (10, ds).
Proof.
  destruct ds as [|a [|b rest]]; [done| |].
  - intros _. destruct a as [b0 b1 b2 b3 b4 b5 b6 b7].
    by destruct b0, b1, b2, b3, b4, b5, b6, b7.
  - cbn [digitsZ]. destruct (digitValue 10 a) as [d|]; [|done].
    destruct (digitValue 10 b) as [d'|] eqn:Hb; [|done]. intros _.
    apply digit_plain in Hb as (_ & _ & _ & Hx & HX).
    unfold stripHexPrefix.
    destruct a as [b0 b1 b2 b3 b4 b5 b6 b7].
    destruct b0, b1, b2, b3, b4, b5, b6, b7; try reflexivity.
    destruct b as [c0 c1 c2 c3 c4 c5 c6 c7].
    destruct c0, c1, c2, c3, c4, c5, c6, c7; try reflexivity;
      vm_compute in Hx, HX; discriminate.
Qed.

(** Reading stops at the end of a string of digits. *)
Lemma parseDigits_digits ds : ∀ (o : Num) v s,
  ds ≠ "" → digitsZ (default 0 o) ds = Some v →
  parseDigits 10 o (ds +:+ s) = parseDigits 10 (Some v) s.
Proof.
  induction ds as [|a ds IH]; intros o v s Hne Hv; [done|].
  rewrite string_app_cons. cbn [parseDigits digitsZ] in *.
  destruct (digitValue 10 a) as [d|]; [|done].
  destruct ds as [|b ds'].
  - cbn in Hv. by injection Hv as <-.
  - by apply IH.
Qed.

Lemma takeDigits_digits ds : ∀ acc (n : nat) v s,
  digitsZ acc ds = Some v →
  takeDigits 10 acc n (ds +:+ s)
  = takeDigits 10 v (n + String.length ds) s.
Proof.
  induction ds as [|a ds IH]; intros acc n v s Hv.
  - cbn in Hv. injection Hv as <-.
    change ("" +:+ s) with s. cbn [String.length]. by rewrite Nat.add_0_r.
  - rewrite string_app_cons. cbn [takeDigits digitsZ String.length] in *.
    destruct (digitValue 10 a) as [d|]; [|done].
    rewrite (IH _ _ v) by done. f_equal. lia.
Qed.

Lemma parseInt_digits ds v :
  ds ≠ "" → digitsZ 0 ds = Some v → parseInt ds = Some v.
Proof.
  intros Hne Hv. destruct ds as [|a rest]; [done|].
  assert (is_Some (digitValue 10 a)) as [d Hd].
  { cbn in Hv. by destruct (digitValue 10 a); [eexists|]. }
  destruct (digit_plain a d Hd) as (Hws & Hsign & _).
  unfold parseInt. cbn [skipWhiteSpace]. rewrite Hws, Hsign.
  rewrite (stripHexPrefix_digits 0 _ v) by done.
  rewrite <- (string_app_nil_r (String a rest)).
  rewrite (parseDigits_digits _ None v) by done. cbn.
  f_equal. by destruct v.
Qed.

Lemma parseInt_minus_digits ds v :
  ds ≠ "" → digitsZ 0 ds = Some v → parseInt (String "-" ds) = Some (- v).
Proof.
  intros Hne Hv. unfold parseInt. cbn [skipWhiteSpace].
  change (isWhiteSpace "-") with false. cbv iota.
  change (stripSign (String "-" ds)) with (-1, ds). cbv iota.
  rewrite (stripHexPrefix_digits 0 _ v) by done.
  rewrite <- (string_app_nil_r ds).
  rewrite (parseDigits_digits _ None v) by done.
  cbn [parseDigits]. f_equal; lia.
Qed.

Lemma pretty_N_digits (x : N) :
  ∃ ds, pretty x = ds ∧ ds ≠ ""
        ∧ ∀ acc, digitsZ acc ds
                 = Some (acc * 10 ^ Z.of_nat (String.length ds) + Z.of_N x).
Proof.
  unfold pretty, pretty_N. case_decide as Hx.
  - subst x. exists "0". split; [done|]. split; [done|].
    intros acc. change (digitsZ acc "0") with (Some (10 * acc + 0)).
    change (10 ^ Z.of_nat (String.length "0")) with 10. f_equal. lia.
  - destruct (pretty_N_go_digits x "") as (ds & Hgo & Hds & Hne).
    rewrite string_app_nil_r in Hgo. exists ds.
    split; [done|]. split; [apply Hne; lia|done].
Qed.

Lemma parseInt_pretty (z : Z) : parseInt (pretty z) = Some z.
Proof.
  destruct z as [|p|p]; [reflexivity| |].
  - change (pretty (Z.pos p)) with (pretty (N.pos p)).
    destruct (pretty_N_digits (N.pos p)) as (ds & -> & Hne & Hds).
    apply parseInt_digits; [done|]. rewrite Hds. f_equal; lia.
  - change (pretty (Z.neg p)) with ("-" +:+ pretty (N.pos p)).
    destruct (pretty_N_digits (N.pos p)) as (ds & -> & Hne & Hds).
    change ("-" +:+ ds) with (String "-" ds).
    rewrite (parseInt_minus_digits ds (Z.pos p)); [done..|].
    rewrite Hds. f_equal; lia.
Qed.

End Decimal.

(** X10. An integer id written as a property key parses back to the id:
    the removal loop of handleLiveUpdate removes the record under the key
    of an integer id exactly when that id is not on the live list. *)
Theorem key_of_id_round_trip (liveIds : gset Z) (id : Z) :
  parseInt (pretty id) = Some id
  ∧ staleKey liveIds (pretty id) = bool_decide (id ∉ liveIds).
Proof.
  split; [apply parseInt_pretty|].
  unfold staleKey. by rewrite parseInt_pretty.
Qed.

(** ** Bin labels read back *)

Section Labels.

Implicit Types (ds s rest : string) (a : ascii) (acc v : Z).

Lemma pretty_nonneg_digits (z : Z) :
  0 <= z → ∃ ds, pretty z = ds ∧ ds ≠ "" ∧ digitsZ 0 ds = Some z.
Proof.
  intros Hz. destruct z as [|p|p]; [by exists "0"| |lia].
  change (pretty (Z.pos p)) with (pretty (N.pos p)).
  destruct (pretty_N_digits (N.pos p)) as (ds & -> & Hne & Hds).
  exists ds. split; [done|]. split; [done|]. rewrite Hds. f_equal; lia.
Qed.

Lemma splitHead_digits ds : ∀ acc v rest,
  digitsZ acc ds = Some v → splitHead (ds +:+ String "-" rest) = ds.
Proof.
  induction ds as [|a ds IH]; intros acc v rest Hv; [done|].
  rewrite string_app_cons. cbn [splitHead digitsZ] in *.
  destruct (digitValue 10 a) as [d|] eqn:Hd; [|done].
  destruct (digit_plain a d Hd) as (_ & _ & -> & _).
  f_equal. by eapply IH.
Qed.

Lemma digits_noWhiteSpace ds : ∀ acc v,
  digitsZ acc ds = Some v → noWhiteSpace ds = true.
Proof.
  induction ds as [|a ds IH]; intros acc v Hv; [done|].
  cbn [noWhiteSpace digitsZ] in *.
  destruct (digitValue 10 a) as [d|] eqn:Hd; [|done].
  destruct (digit_plain a d Hd) as (-> & _). cbn. by eapply IH.
Qed.

Lemma noWhiteSpace_app s1 s2 :
  noWhiteSpace (s1 +:+ s2) = noWhiteSpace s1 && noWhiteSpace s2.
Proof.
  induction s1 as [|a s1 IH]; [done|].
  rewrite string_app_cons. cbn [noWhiteSpace]. rewrite IH.
  by rewrite andb_assoc.
Qed.

Lemma pretty_noWhiteSpace (z : Z) : noWhiteSpace (pretty z) = true.
Proof.
  destruct z as [|p|p]; [done| |].
  - change (pretty (Z.pos p)) with (pretty (N.pos p)).
    destruct (pretty_N_digits (N.pos p)) as (ds & -> & _ & Hds).
    by apply (digits_noWhiteSpace ds 0 _ (Hds 0)).
  - change (pretty (Z.neg p)) with (String "-" (pretty (N.pos p))).
    destruct (pretty_N_digits (N.pos p)) as (ds & -> & _ & Hds).
    cbn [noWhiteSpace]. change (isWhiteSpace "-") with false. cbn.
    by apply (digits_noWhiteSpace ds 0 _ (Hds 0)).
Qed.

Lemma skipWhiteSpace_id s : noWhiteSpace s = true → skipWhiteSpace s = s.
Proof.
  destruct s as [|a s]; [done|]. cbn [noWhiteSpace skipWhiteSpace].
  by destruct (isWhiteSpace a).
Qed.

Lemma trimEnd_id s : noWhiteSpace s = true → trimEnd s = s.
Proof.
  induction s as [|a s IH]; [done|]. cbn [noWhiteSpace trimEnd].
  intros [Ha Hs]%andb_true_iff. rewrite IH by done.
  destruct s; [|done]. by destruct (isWhiteSpace a).
Qed.

Lemma nonDecimalInteger_digits ds acc v rest :
  digitsZ acc ds = Some v →
  nonDecimalInteger (ds +:+ String "-" rest) = None.
Proof.
  destruct ds as [|a ds]; [done|]. rewrite string_app_cons.
  cbn [digitsZ]. destruct (digitValue 10 a) as [d|] eqn:Hd; [|done].
  intros Hv. destruct a as [b0 b1 b2 b3 b4 b5 b6 b7].
  destruct b0, b1, b2, b3, b4, b5, b6, b7;
    vm_compute in Hd; try discriminate Hd; try reflexivity.
  destruct ds as [|b ds]; [reflexivity|]. rewrite string_app_cons.
  cbn [digitsZ] in Hv. destruct (digitValue 10 b) as [d'|] eqn:Hb; [|done].
  destruct b as [c0 c1 c2 c3 c4 c5 c6 c7].
  destruct c0, c1, c2, c3, c4, c5, c6, c7;
    vm_compute in Hb; try discriminate Hb; reflexivity.
Qed.

Lemma not_Infinity a d tail :
  digitValue 10 a = Some d → String.eqb (String a tail) "Infinity" = false.
Proof.
  intros Hd. destruct a as [b0 b1 b2 b3 b4 b5 b6 b7].
  destruct b0, b1, b2, b3, b4, b5, b6, b7;
    vm_compute in Hd; try discriminate Hd; reflexivity.
Qed.

Lemma unsignedDecimal_digits ds v rest :
  ds ≠ "" → digitsZ 0 ds = Some v →
  unsignedDecimal (ds +:+ String "-" rest) = NaN.
Proof.
  intros Hne Hv. unfold unsignedDecimal.
  rewrite (takeDigits_digits ds 0 0 v) by done.
  destruct ds as [|a ds]; [done|]. rewrite string_app_cons.
  assert (is_Some (digitValue 10 a)) as [d Hd].
  { cbn [digitsZ] in Hv. by destruct (digitValue 10 a); [eexists|]. }
  rewrite (not_Infinity a d) by done.
  cbn [takeDigits String.length Nat.add].
  change (digitValue 10 "-") with (@None Z). reflexivity.
Qed.

(** A label "[a]-[b]" with [a] not negative is no number. *)
Lemma toNumber_range_label ds v rest :
  ds ≠ "" → digitsZ 0 ds = Some v → noWhiteSpace rest = true →
  toNumber (ds +:+ String "-" rest) = NaN.
Proof.
  intros Hne Hv Hrest.
  pose proof (nonDecimalInteger_digits ds 0 v rest Hv) as HnD.
  pose proof (unsignedDecimal_digits ds v rest Hne Hv) as HuD.
  unfold toNumber.
  rewrite skipWhiteSpace_id, trimEnd_id.
  2,3: rewrite noWhiteSpace_app, (digits_noWhiteSpace ds 0 v Hv);
       cbn [noWhiteSpace andb]; by rewrite Hrest.
  destruct ds as [|a ds]; [done|]. rewrite string_app_cons in *.
  assert (is_Some (digitValue 10 a)) as [d Hd].
  { cbn [digitsZ] in Hv. by destruct (digitValue 10 a); [eexists|]. }
  destruct a as [b0 b1 b2 b3 b4 b5 b6 b7].
  destruct b0, b1, b2, b3, b4, b5, b6, b7;
    vm_compute in Hd; try discriminate Hd;
    cbv beta iota; by rewrite HnD, HuD.
Qed.

Lemma binLabel_dash (binStart binEnd : Z) :
  binLabel binStart binEnd = pretty binStart +:+ String "-" (pretty binEnd).
Proof. reflexivity. Qed.

End Labels.

(** X11. The colour callback of drawDistributionChart reads a range label
    "[a]-[b]" as its lower bound [a] when [a] is not negative, and
    classifies the bin by [a] against the two thresholds in the direction
    of [lowIsBad]; a label that starts with a minus sign has no lower
    bound (the text before the first "-" is empty) and always gets the
    good colour. *)
Theorem distributionColor_reads_lower_bound
    (lowIsBad : bool) (criticalThreshold warningThreshold a b : Z) :
  (0 <= a →
   distributionColor lowIsBad criticalThreshold warningThreshold (binLabel a b)
   = if lowIsBad
     then if decide (a <= criticalThreshold) then CRITICAL
          else if decide (a <= warningThreshold) then WARNING
          else GOOD
     else if decide (a >= criticalThreshold) then CRITICAL
          else if decide (a >= warningThreshold) then WARNING
          else GOOD)
  ∧ (a < 0 →
     distributionColor lowIsBad criticalThreshold warningThreshold (binLabel a b)
     = GOOD).
Proof.
  split.
  - intros Ha. apply distributionColor_classifies. rewrite binLabel_dash.
    destruct (pretty_nonneg_digits a Ha) as (ds & -> & Hne & Hds).
    rewrite (splitHead_digits ds 0 a) by done. by apply parseInt_digits.
  - intros Ha. destruct a as [|p|p]; [lia..|].
    rewrite binLabel_dash. unfold distributionColor.
    change (pretty (Z.neg p)) with (String "-" (pretty (N.pos p))).
    rewrite string_app_cons. cbn [splitHead].
    change (Ascii.eqb "-" "-") with true. cbv iota.
    change (parseInt "") with (@None Z). by destruct lowIsBad.
Qed.

Lemma distributionColor_reads_lower_bound_witness :
  distributionColor true 10 30 (binLabel 20 29) = WARNING.
Proof.
  destruct (distributionColor_reads_lower_bound true 10 30 20 29) as [Hpos _].
  rewrite Hpos by lia. reflexivity.
Defined.

(** X12. On the per-species energy, hunger and thirst charts the colour
    callbacks compare the label string with the thresholds. Every label
    that createHistogramData makes, for every bin width and upper bound,
    converts to NaN, so every bar of these charts gets the good colour,
    whatever the thresholds are. *)
Theorem threshold_colours_never_apply
    (rawData : list (string * Z)) (binSize maxVal critical warning : Z)
    (label : string) :
  label ∈ labels (createHistogramData rawData binSize maxVal) →
  toNumber label = NaN
  ∧ energyBackgroundColor critical warning label = GOOD
  ∧ hungerBackgroundColor critical warning label = GOOD.
Proof.
  intros Hlabel.
  assert (toNumber label = NaN) as Hnan.
  { unfold createHistogramData in Hlabel.
    destruct (Z.leb_spec binSize 0) as [Hle|Hpos];
      [by apply not_elem_of_nil in Hlabel|].
    cbn [labels] in Hlabel. rewrite pushBins_labels in Hlabel by lia.
    cbn [labels app] in Hlabel.
    apply list_elem_of_fmap in Hlabel as (j & -> & Hj).
    apply elem_of_seqZ in Hj as [Hj _].
    rewrite binLabel_dash.
    assert (0 <= 0 + j * binSize) as Hstart by nia.
    destruct (pretty_nonneg_digits (0 + j * binSize) Hstart)
      as (ds & -> & Hne & Hds).
    apply (toNumber_range_label ds (0 + j * binSize)); [done..|].
    apply pretty_noWhiteSpace. }
  split; [done|].
  unfold energyBackgroundColor, hungerBackgroundColor. by rewrite Hnan.
Qed.

Lemma threshold_colours_never_apply_witness :
  hungerBackgroundColor 80 50 "90-99" = GOOD.
Proof.
  apply (threshold_colours_never_apply [("95", 4)] 10 101 80 50 "90-99").
  vm_compute. do 9 right. left.
Defined.

(** ** Critters at rest *)

Section Rest.

Lemma ease_arrived (current target : Q) :
  (current == target)%Q → (ease current target == current)%Q.
Proof. intros H. unfold ease. lra. Qed.

Lemma ease_fixed (current target : Q) :
  (ease current target == current)%Q → (current == target)%Q.
Proof. unfold ease. intros H. lra. Qed.

End Rest.

(** X13. Critters at rest stay at rest. When every record of the cache
    has arrived at its target, frames and clicks, in any number and
    order, leave every record at its position with its target and its
    snapshot: only a fetch sets the display in motion again. *)
Theorem at_rest_until_fetch (events : list Event) (s : State) :
  (∀ k r, critterDisplayData s !! k = Some r → atTarget r) →
  Forall (λ e, isLocal e = true) events →
  ∀ k r, critterDisplayData s !! k = Some r →
    ∃ r', critterDisplayData (run events s) !! k = Some r'
          ∧ (currentX r' == currentX r)%Q ∧ (currentY r' == currentY r)%Q
          ∧ targetX r' = targetX r ∧ targetY r' = targetY r
          ∧ critter r' = critter r.
Proof.
  intros Hrest Hlocal k r Hr.
  induction events as [|e events IH] using rev_ind.
  { exists r. by repeat split. }
  apply Forall_app in Hlocal as [Hlocal He].
  rewrite Forall_singleton in He.
  destruct (IH Hlocal) as (r' & Hr' & Hx & Hy & Htx & Hty & Hc).
  rewrite run_snoc.
  destruct e as [input terrain resp|resp season|cv event|]; try done.
  - exists r'. unfold handle. by rewrite handleCanvasClick_display.
  - exists (advance r'). unfold handle. rewrite animationLoop_display.
    rewrite lookup_fmap, Hr'. split; [done|].
    destruct (Hrest k r Hr) as [Hax Hay]. cbn.
    split; [|split; [|done]].
    + rewrite ease_arrived; [done|]. rewrite Hx, Htx. done.
    + rewrite ease_arrived; [done|]. rewrite Hy, Hty. done.
Qed.

Lemma at_rest_until_fetch_witness :
  ∃ r', critterDisplayData
          (run [Frame; CanvasClick sampleCanvas (mkClick 10 10); Frame]
             (handleManualUpdate sampleView (Fulfilled [])
                (Fulfilled [herbivore 7 41 42]) sampleState)) !! 7 = Some r'
        ∧ (currentX r' == 41)%Q ∧ (currentY r' == 42)%Q.
Proof.
  destruct (at_rest_until_fetch
              [Frame; CanvasClick sampleCanvas (mkClick 10 10); Frame]
              (handleManualUpdate sampleView (Fulfilled [])
                 (Fulfilled [herbivore 7 41 42]) sampleState))
    with (k := 7) (r := spawn (herbivore 7 41 42))
    as (r' & Hr' & Hx & Hy & _).
  - intros k r Hr. cbn in Hr.
    destruct (decide (k = 7)) as [->|Hne].
    + rewrite lookup_insert in Hr. injection Hr as <-. by split.
    + rewrite lookup_insert_ne in Hr by done. done.
  - repeat constructor.
  - reflexivity.
  - exists r'. by repeat split.
Defined.

(** ** Session history *)

Section History.

Lemma manualInputs_snoc events e :
  manualInputs (events ++ [e])
  = match e with
    | ManualUpdate input _ _ => input :: manualInputs events
    | _ => manualInputs events
    end.
Proof. unfold manualInputs. by rewrite foldl_app. Qed.

Lemma handle_history e s :
  pushedUrls (handle e s)
  = match e with
    | ManualUpdate input _ _ => input :: pushedUrls s
    | _ => pushedUrls s
    end
  ∧ currentView (handle e s)
    = match e with
      | ManualUpdate input _ _ => input
      | _ => currentView s
      end.
Proof.
  destruct e as [input terrain resp|resp season|cv event|]; cbn [handle].
  - destruct terrain as [err|tiles]; [done|]. by destruct resp.
  - unfold handleLiveUpdate.
    destruct (currentTerrainData s); [|done].
    by destruct resp, season.
  - unfold handleCanvasClick.
    destruct (currentTerrainData s); [|done]. cbn zeta.
    by destruct (hitScan _ _ _ _ _) as [[c|] m].
  - unfold animationLoop.
    destruct s as [t v d sel p el se u l]. cbn.
    destruct sel as [sel|]; [|done].
    by destruct ((advance <$> d) !! c_id sel).
Qed.

End History.

(** X14. The session history follows the draw button and nothing else:
    every manual update pushes its view, whether or not its fetches
    succeed, and no other event pushes anything; the view the page works
    with is always the one pushed last. *)
Theorem history_follows_manual_updates (view : View) (events : list Event) :
  let s := run events (initialState view) in
  pushedUrls s = manualInputs events
  ∧ currentView s = hd view (pushedUrls s).
Proof.
  cbn zeta. induction events as [|e events [IHu IHv]] using rev_ind; [done|].
  rewrite run_snoc, manualInputs_snoc.
  destruct (handle_history e (run events (initialState view))) as [-> ->].
  rewrite IHu in IHv |- *. by destruct e.
Qed.

(** ** Terrain colours *)

Section Colour.

Lemma bytes_forall (P : Z → bool) :
  forallb P (seqZ 0 256) = true → ∀ n, 0 <= n <= 255 → P n = true.
Proof.
  intros Hall n Hn. rewrite forallb_forall in Hall. apply Hall.
  apply list_elem_of_In, elem_of_seqZ. lia.
Qed.

Lemma clamp_range (R : Num) : 0 <= clamp R <= 255.
Proof.
  unfold clamp. destruct R as [v|]; [|cbn; lia].
  destruct (Z.ltb_spec v 255) as [H|H].
  - destruct (Z.ltb_spec 0 v); lia.
  - cbn. lia.
Qed.

(** A channel value is written as two lower-case digits that parseInt
    reads back. *)
Lemma twoDigits_byte (n : Z) :
  0 <= n <= 255 →
  ∃ a b, twoDigits n = String a (String b "")
         ∧ isLowerHexDigit a = true ∧ isLowerHexDigit b = true
         ∧ parseInt16 (twoDigits n) = Some n
         ∧ padStart2 (toString16 n) = twoDigits n.
Proof.
  intros Hn.
  pose (P := λ n,
    match twoDigits n with
    | String a (String b EmptyString) =>
        isLowerHexDigit a && isLowerHexDigit b
        && bool_decide (parseInt16 (twoDigits n) = Some n)
        && String.eqb (padStart2 (toString16 n)) (twoDigits n)
    | _ => false
    end).
  assert (P n = true) as HP by (apply bytes_forall; [by vm_compute|done]).
  unfold P in HP.
  destruct (twoDigits n) as [|a [|b [|]]] eqn:Htwo; try discriminate HP.
  apply andb_prop in HP as [HP Hpad]. apply andb_prop in HP as [HP Hparse].
  apply andb_prop in HP as [Ha Hb].
  exists a, b. repeat split; try done.
  - by apply bool_decide_eq_true in Hparse.
  - by apply String.eqb_eq in Hpad.
Qed.

Lemma isLowerHexDigit_cases (a : ascii) :
  isLowerHexDigit a = true →
  In a ["0"; "1"; "2"; "3"; "4"; "5"; "6"; "7"; "8"; "9";
        "a"; "b"; "c"; "d"; "e"; "f"]%char.
Proof.
  intros H. destruct a as [b0 b1 b2 b3 b4 b5 b6 b7].
  destruct b0, b1, b2, b3, b4, b5, b6, b7;
    vm_compute in H; try discriminate H; cbn; tauto.
Qed.

(** Two lower-case digits are the two digits of a channel value. *)
Lemma hexPair_byte (a b : ascii) :
  isLowerHexDigit a = true → isLowerHexDigit b = true →
  ∃ n, 0 <= n <= 255 ∧ twoDigits n = String a (String b "").
Proof.
  intros Ha%isLowerHexDigit_cases Hb%isLowerHexDigit_cases.
  pose (value := λ a b, default 0 (parseInt16 (String a (String b "")))).
  pose (P := λ a b : ascii,
    (0 <=? value a b) && (value a b <=? 255)
    && String.eqb (twoDigits (value a b)) (String a (String b ""))).
  pose (digits := ["0"; "1"; "2"; "3"; "4"; "5"; "6"; "7"; "8"; "9";
                   "a"; "b"; "c"; "d"; "e"; "f"]%char).
  assert (forallb (λ a, forallb (P a) digits) digits = true) as Hall
    by (by vm_compute).
  rewrite forallb_forall in Hall. specialize (Hall a Ha).
  rewrite forallb_forall in Hall. specialize (Hall b Hb).
  unfold P in Hall. apply andb_prop in Hall as [Hrange Heq].
  apply andb_prop in Hrange as [Hlo Hhi].
  exists (value a b). split; [lia|]. by apply String.eqb_eq in Heq.
Qed.

(** The three fields of a colour of six digits. *)
Lemma isHexColor_fields (color : string) :
  isHexColor color = true →
  ∃ r g b, (0 <= r <= 255 ∧ 0 <= g <= 255 ∧ 0 <= b <= 255)
    ∧ color = "#" +:+ twoDigits r +:+ twoDigits g +:+ twoDigits b
    ∧ substringBetween 1 3 color = twoDigits r
    ∧ substringBetween 3 5 color = twoDigits g
    ∧ substringBetween 5 7 color = twoDigits b.
Proof.
  intros H.
  destruct color as [|h rest]; [discriminate H|].
  destruct h as [[] [] [] [] [] [] [] []]; try discriminate H.
  destruct rest as [|r1 [|r2 [|g1 [|g2 [|b1 [|b2 [|]]]]]]];
    try discriminate H.
  cbn [isHexColor forallb] in H.
  repeat (apply andb_prop in H as [? H]).
  destruct (hexPair_byte r1 r2) as (r & Hr & Hrr); [done..|].
  destruct (hexPair_byte g1 g2) as (g & Hg & Hgg); [done..|].
  destruct (hexPair_byte b1 b2) as (b & Hb & Hbb); [done..|].
  exists r, g, b. rewrite Hrr, Hgg, Hbb. repeat split; try lia; reflexivity.
Qed.

Lemma Qfloor_half (x : Q) (n : Z) :
  (x == inject_Z n)%Q → Qfloor (x + (1 # 2)) = n.
Proof.
  intros ->. unfold Qfloor, inject_Z, Qplus. cbn.
  symmetry. apply Z.div_unique with 1; lia.
Qed.

Lemma Qfloor_half_between (x : Q) (lo hi : Z) :
  (inject_Z lo <= x)%Q → (x <= inject_Z hi)%Q →
  lo <= Qfloor (x + (1 # 2)) <= hi.
Proof.
  intros Hlo Hhi. split.
  - rewrite <- (Qfloor_Z lo). apply Qfloor_resp_le. lra.
  - pose proof (Qfloor_le (x + (1 # 2))) as Hfl.
    assert (inject_Z (Qfloor (x + (1 # 2))) < inject_Z (hi + 1))%Q as Hlt.
    { rewrite inject_Z_plus. change (inject_Z 1) with 1%Q. lra. }
    rewrite <- Zlt_Qlt in Hlt. lia.
Qed.

(** One channel of an interpolation between channel values. *)
Lemma interpolateChannel_bytes (first last : nat) (color1 color2 : string)
    (n1 n2 : Z) (f : Q) :
  parseInt16 (substringBetween first last color1) = Some n1 →
  parseInt16 (substringBetween first last color2) = Some n2 →
  interpolateChannel first last color1 color2 (Finite f)
  = RoundedTo (Qfloor (inject_Z n1 * (1 + - f) + inject_Z n2 * f + (1 # 2))).
Proof. intros H1 H2. unfold interpolateChannel. by rewrite H1, H2. Qed.

End Colour.

(** X15. Whatever string and percentage it is given, shadeColor returns
    a colour of the form [#rrggbb] with six lower-case hexadecimal digits:
    a field that is no number is NaN and is clamped to 255, every other
    value is clamped into 0..255. *)
Theorem shadeColor_well_formed (color : string) (percent : JsNumber) :
  isHexColor (shadeColor color percent) = true.
Proof.
  unfold shadeColor, shadeChannel.
  destruct (twoDigits_byte _ (clamp_range (parseIntNumber (times (ofNum
    (parseInt16 (substringBetween 1 3 color))) (plus (Finite 1) percent)))))
    as (r1 & r2 & -> & Hr1 & Hr2 & _).
  destruct (twoDigits_byte _ (clamp_range (parseIntNumber (times (ofNum
    (parseInt16 (substringBetween 3 5 color))) (plus (Finite 1) percent)))))
    as (g1 & g2 & -> & Hg1 & Hg2 & _).
  destruct (twoDigits_byte _ (clamp_range (parseIntNumber (times (ofNum
    (parseInt16 (substringBetween 5 7 color))) (plus (Finite 1) percent)))))
    as (b1 & b2 & -> & Hb1 & Hb2 & _).
  change (forallb isLowerHexDigit [r1; r2; g1; g2; b1; b2] = true).
  cbn [forallb]. by rewrite Hr1, Hr2, Hg1, Hg2, Hb1, Hb2.
Qed.

(** X16. Shading by 0 changes nothing: shadeColor returns a colour of
    six lower-case digits as it is, so its parsing of the three fields and
    its writing of them are inverse to each other. *)
Theorem shadeColor_zero (color : string) :
  isHexColor color = true → shadeColor color (Finite 0) = color.
Proof.
  intros (r & g & b & (Hr & Hg & Hb) & Hcolor & Hsr & Hsg & Hsb)%isHexColor_fields.
  assert (∀ n, 0 <= n <= 255 →
    twoDigits (clamp (parseIntNumber (times (ofNum (parseInt16 (twoDigits n)))
      (plus (Finite 1) (Finite 0))))) = twoDigits n) as Hchannel.
  { intros n Hn. apply String.eqb_eq.
    apply (bytes_forall (λ n, String.eqb (twoDigits (clamp (parseIntNumber
      (times (ofNum (parseInt16 (twoDigits n))) (plus (Finite 1) (Finite 0))))))
      (twoDigits n))); [by vm_compute|done]. }
  unfold shadeColor, shadeChannel. rewrite Hsr, Hsg, Hsb.
  rewrite !Hchannel by done. by rewrite Hcolor.
Qed.

Lemma shadeColor_zero_witness : shadeColor "#34a12d" (Finite 0) = "#34a12d".
Proof. apply shadeColor_zero. reflexivity. Defined.

Section Interpolate.

Lemma Q_of_byte (n : Z) : 0 <= n <= 255 → (0 <= inject_Z n <= 255)%Q.
Proof.
  intros [H0 H255]. rewrite Zle_Qle in H0, H255.
  change (inject_Z 255) with 255%Q in H255. change (inject_Z 0) with 0%Q in H0.
  done.
Qed.

Lemma mix_byte (n1 n2 : Z) (f : Q) :
  0 <= n1 <= 255 → 0 <= n2 <= 255 → (0 <= f <= 1)%Q →
  0 <= Qfloor (inject_Z n1 * (1 + - f) + inject_Z n2 * f + (1 # 2)) <= 255.
Proof.
  intros H1%Q_of_byte H2%Q_of_byte Hf.
  apply Qfloor_half_between.
  - change (inject_Z 0) with 0%Q. nra.
  - change (inject_Z 255) with 255%Q. nra.
Qed.

(** The interpolation of two colours of six digits, channel by channel. *)
Lemma interpolateColor_fields (color1 color2 : string) (f : Q)
    (r1 g1 b1 r2 g2 b2 : Z) :
  parseInt16 (substringBetween 1 3 color1) = Some r1 →
  parseInt16 (substringBetween 3 5 color1) = Some g1 →
  parseInt16 (substringBetween 5 7 color1) = Some b1 →
  parseInt16 (substringBetween 1 3 color2) = Some r2 →
  parseInt16 (substringBetween 3 5 color2) = Some g2 →
  parseInt16 (substringBetween 5 7 color2) = Some b2 →
  interpolateColor color1 color2 (Finite f)
  = "#" +:+ padStart2 (toString16
              (Qfloor (inject_Z r1 * (1 + - f) + inject_Z r2 * f + (1 # 2))))
        +:+ padStart2 (toString16
              (Qfloor (inject_Z g1 * (1 + - f) + inject_Z g2 * f + (1 # 2))))
        +:+ padStart2 (toString16
              (Qfloor (inject_Z b1 * (1 + - f) + inject_Z b2 * f + (1 # 2)))).
Proof.
  intros Hr1 Hg1 Hb1 Hr2 Hg2 Hb2. unfold interpolateColor.
  rewrite (interpolateChannel_bytes 1 3 color1 color2 r1 r2) by done.
  rewrite (interpolateChannel_bytes 3 5 color1 color2 g1 g2) by done.
  rewrite (interpolateChannel_bytes 5 7 color1 color2 b1 b2) by done.
  reflexivity.
Qed.

Lemma isHexColor_parse (color : string) :
  isHexColor color = true →
  ∃ r g b, (0 <= r <= 255 ∧ 0 <= g <= 255 ∧ 0 <= b <= 255)
    ∧ color = "#" +:+ twoDigits r +:+ twoDigits g +:+ twoDigits b
    ∧ parseInt16 (substringBetween 1 3 color) = Some r
    ∧ parseInt16 (substringBetween 3 5 color) = Some g
    ∧ parseInt16 (substringBetween 5 7 color) = Some b.
Proof.
  intros (r & g & b & (Hr & Hg & Hb) & Hcolor & -> & -> & ->)%isHexColor_fields.
  exists r, g, b. split; [done|]. split; [done|].
  destruct (twoDigits_byte r Hr) as (? & ? & _ & _ & _ & -> & _).
  destruct (twoDigits_byte g Hg) as (? & ? & _ & _ & _ & -> & _).
  destruct (twoDigits_byte b Hb) as (? & ? & _ & _ & _ & -> & _).
  done.
Qed.

Lemma mix_start (n1 n2 : Z) (f : Q) :
  (f == 0)%Q →
  Qfloor (inject_Z n1 * (1 + - f) + inject_Z n2 * f + (1 # 2)) = n1.
Proof. intros Hf. apply Qfloor_half. rewrite Hf. ring. Qed.

Lemma mix_end (n1 n2 : Z) (f : Q) :
  (f == 1)%Q →
  Qfloor (inject_Z n1 * (1 + - f) + inject_Z n2 * f + (1 # 2)) = n2.
Proof. intros Hf. apply Qfloor_half. rewrite Hf. ring. Qed.

Lemma padStart2_byte (n : Z) :
  0 <= n <= 255 → padStart2 (toString16 n) = twoDigits n.
Proof. intros Hn. by destruct (twoDigits_byte n Hn) as (? & ? & _ & _ & _ & _ & ->). Qed.

Lemma interpolateColor_start (color1 color2 : string) (f : Q) :
  isHexColor color1 = true → isHexColor color2 = true → (f == 0)%Q →
  interpolateColor color1 color2 (Finite f) = color1.
Proof.
  intros (r1 & g1 & b1 & (Hr1 & Hg1 & Hb1) & Hc1 & Hpr1 & Hpg1 & Hpb1)%isHexColor_parse.
  intros (r2 & g2 & b2 & (Hr2 & Hg2 & Hb2) & Hc2 & Hpr2 & Hpg2 & Hpb2)%isHexColor_parse.
  intros Hf.
  rewrite (interpolateColor_fields color1 color2 f r1 g1 b1 r2 g2 b2) by done.
  rewrite !mix_start by done. rewrite !padStart2_byte by done. by rewrite Hc1.
Qed.

Lemma interpolateColor_end (color1 color2 : string) (f : Q) :
  isHexColor color1 = true → isHexColor color2 = true → (f == 1)%Q →
  interpolateColor color1 color2 (Finite f) = color2.
Proof.
  intros (r1 & g1 & b1 & (Hr1 & Hg1 & Hb1) & Hc1 & Hpr1 & Hpg1 & Hpb1)%isHexColor_parse.
  intros (r2 & g2 & b2 & (Hr2 & Hg2 & Hb2) & Hc2 & Hpr2 & Hpg2 & Hpb2)%isHexColor_parse.
  intros Hf.
  rewrite (interpolateColor_fields color1 color2 f r1 g1 b1 r2 g2 b2) by done.
  rewrite !mix_end by done. rewrite !padStart2_byte by done. by rewrite Hc2.
Qed.

End Interpolate.

(** X17. Between two colours of six digits, interpolateColor returns the
    first colour at factor 0 and the second at factor 1. *)
Theorem interpolateColor_endpoints (color1 color2 : string) :
  isHexColor color1 = true → isHexColor color2 = true →
  interpolateColor color1 color2 (Finite 0) = color1
  ∧ interpolateColor color1 color2 (Finite 1) = color2.
Proof.
  intros H1 H2. split.
  - by apply interpolateColor_start.
  - by apply interpolateColor_end.
Qed.

Lemma interpolateColor_endpoints_witness :
  interpolateColor "#855a38" "#34a12d" (Finite 0) = "#855a38"
  ∧ interpolateColor "#855a38" "#34a12d" (Finite 1) = "#34a12d".
Proof. apply interpolateColor_endpoints; reflexivity. Defined.

(** X18. For a factor from 0 to 1, the interpolation of two colours of
    six digits is again a colour of six digits, which shadeColor can
    read. *)
Theorem interpolateColor_well_formed (color1 color2 : string) (factor : Q) :
  isHexColor color1 = true → isHexColor color2 = true →
  (0 <= factor <= 1)%Q →
  isHexColor (interpolateColor color1 color2 (Finite factor)) = true.
Proof.
  intros (r1 & g1 & b1 & (Hr1 & Hg1 & Hb1) & Hc1 & Hpr1 & Hpg1 & Hpb1)%isHexColor_parse.
  intros (r2 & g2 & b2 & (Hr2 & Hg2 & Hb2) & Hc2 & Hpr2 & Hpg2 & Hpb2)%isHexColor_parse.
  intros Hf.
  rewrite (interpolateColor_fields color1 color2 factor r1 g1 b1 r2 g2 b2)
    by done.
  rewrite !padStart2_byte by (by apply mix_byte).
  destruct (twoDigits_byte _ (mix_byte r1 r2 factor Hr1 Hr2 Hf))
    as (x1 & x2 & -> & Hx1 & Hx2 & _).
  destruct (twoDigits_byte _ (mix_byte g1 g2 factor Hg1 Hg2 Hf))
    as (y1 & y2 & -> & Hy1 & Hy2 & _).
  destruct (twoDigits_byte _ (mix_byte b1 b2 factor Hb1 Hb2 Hf))
    as (z1 & z2 & -> & Hz1 & Hz2 & _).
  change (forallb isLowerHexDigit [x1; x2; y1; y2; z1; z2] = true).
  cbn [forallb]. by rewrite Hx1, Hx2, Hy1, Hy2, Hz1, Hz2.
Qed.

Lemma interpolateColor_well_formed_witness :
  isHexColor (interpolateColor "#855a38" "#34a12d" (Finite (1 # 2))) = true.
Proof.
  apply interpolateColor_well_formed; [reflexivity..|].
  split; by vm_compute.
Defined.

(** ** drawTerrain *)

Section Terrain.

Lemma parseIntNumber_zero (x : Q) :
  parseIntNumber (times (ofNum (Some 0)) (plus (Finite 1) (Finite x))) = Some 0.
Proof.
  destruct x as [n d]. by cbn.
Qed.

(** A field that reads as 0 stays 0, and a field that is no number
    becomes 255, whatever the percentage. *)
Lemma shadeChannel_zero (first last : nat) (color : string) (x : Q) :
  parseInt16 (substringBetween first last color) = Some 0 →
  shadeChannel first last color (Finite x) = "00".
Proof.
  intros H. unfold shadeChannel. rewrite H. by rewrite parseIntNumber_zero.
Qed.

Lemma shadeChannel_NaN (first last : nat) (color : string) (percent : JsNumber) :
  parseInt16 (substringBetween first last color) = None →
  shadeChannel first last color percent = "ff".
Proof. intros H. unfold shadeChannel. by rewrite H. Qed.

Lemma colorMap_Undefined (name : string) :
  name ∉ ["WATER"; "GRASS"; "DIRT"; "MOUNTAIN"] → name ∉ objectPrototype →
  String.eqb name "GRASS" = false ∧ colorMap name = Undefined.
Proof.
  intros Hown Hinherited.
  assert (String.eqb name "WATER" = false) as Hw
    by (apply String.eqb_neq; intros ->; apply Hown; set_solver).
  assert (String.eqb name "GRASS" = false) as Hg
    by (apply String.eqb_neq; intros ->; apply Hown; set_solver).
  assert (String.eqb name "DIRT" = false) as Hd
    by (apply String.eqb_neq; intros ->; apply Hown; set_solver).
  assert (String.eqb name "MOUNTAIN" = false) as Hm
    by (apply String.eqb_neq; intros ->; apply Hown; set_solver).
  split; [done|]. unfold colorMap. rewrite Hw, Hg, Hd, Hm.
  by rewrite bool_decide_eq_false_2.
Qed.

End Terrain.

(** X19. A tile whose terrain is none of the four of the colour map is
    not painted black: the fallback ["#000"] has no third field, which
    reads as NaN and is clamped to 255, so the tile is pure blue at every
    height. *)
Theorem unknown_terrain_is_blue (DEFAULT_GRASS_FOOD : JsNumber) (tile : Tile) :
  t_terrain tile ∉ ["WATER"; "GRASS"; "DIRT"; "MOUNTAIN"] →
  t_terrain tile ∉ objectPrototype →
  tileColor DEFAULT_GRASS_FOOD tile = Some "#0000ff".
Proof.
  intros Hown Hinherited.
  destruct (colorMap_Undefined _ Hown Hinherited) as [Hgrass Hmap].
  unfold tileColor. rewrite Hgrass, Hmap. unfold shadeColor.
  rewrite (shadeChannel_zero 1 3), (shadeChannel_zero 3 5) by done.
  by rewrite (shadeChannel_NaN 5 7).
Qed.

Lemma unknown_terrain_is_blue_witness :
  tileColor (Finite 10) (mkTile "LAVA" (1 # 3) 0) = Some "#0000ff".
Proof. apply unknown_terrain_is_blue; compute_done. Defined.

Section Grass.

Lemma dividedBy_finite (p q : Q) :
  ¬ (q == 0)%Q → dividedBy (Finite p) (Finite q) = Finite (p / q).
Proof.
  intros Hq. unfold dividedBy.
  destruct (Qeq_bool q 0) eqn:Hz; [|done].
  by apply Qeq_bool_iff in Hz.
Qed.

Lemma dividedBy_no_divisor (p : Q) (divisor : JsNumber) :
  divisor = NaN ∨ (∃ d, divisor = Finite d ∧ (d == 0)%Q) →
  dividedBy (Finite p) divisor ∈ [NaN; NegInfinity; PosInfinity].
Proof.
  intros [->|(d & -> & Hd)]; [set_solver|].
  unfold dividedBy. apply Qeq_bool_iff in Hd. rewrite Hd.
  destruct (Qeq_bool p 0); [set_solver|].
  unfold infinity. destruct (_ <? _); set_solver.
Qed.

Lemma tileColor_grass (DEFAULT_GRASS_FOOD : JsNumber) (tile : Tile) :
  t_terrain tile = "GRASS" →
  tileColor DEFAULT_GRASS_FOOD tile
  = Some (shadeColor
            (interpolateColor "#855a38" "#34a12d"
               (dividedBy (Finite (t_food tile)) DEFAULT_GRASS_FOOD))
            (Finite (t_height tile * (2 # 5)))).
Proof. intros H. unfold tileColor. by rewrite H. Qed.

Lemma tileColor_inherited (DEFAULT_GRASS_FOOD : JsNumber) (tile : Tile) :
  t_terrain tile ∈ objectPrototype → tileColor DEFAULT_GRASS_FOOD tile = None.
Proof.
  intros H. unfold tileColor, objectPrototype in *.
  repeat (apply elem_of_cons in H as [->|H]; [reflexivity|]).
  by apply elem_of_nil in H.
Qed.

Lemma fillTile_length cv view i finalColor :
  (length (fillTile cv view i finalColor) ≤ 1)%nat.
Proof. unfold fillTile. destruct (_ || _); cbn; lia. Qed.

Lemma drawTiles_throws cv DEFAULT_GRASS_FOOD view tile after before :
  t_terrain tile ∈ objectPrototype →
  ∀ i, ∃ painted,
    drawTiles cv DEFAULT_GRASS_FOOD view i (before ++ tile :: after)
    = (painted, true)
    ∧ (length painted ≤ length before)%nat.
Proof.
  intros Htile. induction before as [|t before IH]; intros i.
  - exists []. cbn. by rewrite tileColor_inherited.
  - cbn [app drawTiles].
    destruct (tileColor DEFAULT_GRASS_FOOD t) as [c|].
    + destruct (IH (i + 1)) as (painted & -> & Hlen).
      exists (fillTile cv view i c ++ painted). split; [done|].
      rewrite length_app. pose proof (fillTile_length cv view i c).
      cbn [length]. lia.
    + exists []. split; [done|]. cbn. lia.
Qed.

End Grass.

(** X20. With a DEFAULT_GRASS_FOOD that is a number other than 0, a grass
    tile that holds no food is painted exactly like a dirt tile of its
    height, and a grass tile that holds DEFAULT_GRASS_FOOD is painted in
    the grass colour of the colour map, shaded by its height. *)
Theorem grass_by_food (d : Q) (tile : Tile) :
  ¬ (d == 0)%Q → t_terrain tile = "GRASS" →
  ((t_food tile == 0)%Q →
   tileColor (Finite d) tile
   = tileColor (Finite d) (mkTile "DIRT" (t_height tile) (t_food tile)))
  ∧ ((t_food tile == d)%Q →
     tileColor (Finite d) tile
     = Some (shadeColor "#34a12d" (Finite (t_height tile * (2 # 5))))).
Proof.
  intros Hd Hgrass. rewrite (tileColor_grass _ _ Hgrass).
  rewrite dividedBy_finite by done. split; intros Hfood.
  - rewrite interpolateColor_start; [done..|].
    rewrite Hfood. unfold Qdiv. ring.
  - rewrite interpolateColor_end; [done..|].
    rewrite Hfood. by field.
Qed.

Lemma grass_by_food_witness :
  tileColor (Finite 10) (mkTile "GRASS" (1 # 2) 0)
  = tileColor (Finite 10) (mkTile "DIRT" (1 # 2) 0)
  ∧ tileColor (Finite 10) (mkTile "GRASS" (1 # 2) 10)
    = Some (shadeColor "#34a12d" (Finite ((1 # 2) * (2 # 5)))).
Proof.
  split.
  - apply (grass_by_food 10 (mkTile "GRASS" (1 # 2) 0)); by vm_compute.
  - apply (grass_by_food 10 (mkTile "GRASS" (1 # 2) 10)); by vm_compute.
Defined.

(** X21. When DEFAULT_GRASS_FOOD is NaN (the page has no such data
    attribute, or not a number in it) or 0, the food share of a grass
    tile is NaN or infinite, the interpolated colour is ["#NaNNaNNaN"],
    and shadeColor reads its first two fields as NaN: every grass tile is
    painted with red and green at 255, whatever food it holds. *)
Theorem grass_without_default (DEFAULT_GRASS_FOOD : JsNumber) (tile : Tile) :
  DEFAULT_GRASS_FOOD = NaN
  ∨ (∃ d, DEFAULT_GRASS_FOOD = Finite d ∧ (d == 0)%Q) →
  t_terrain tile = "GRASS" →
  ∃ blue, tileColor DEFAULT_GRASS_FOOD tile = Some ("#ffff" +:+ blue).
Proof.
  intros Hdefault Hgrass. rewrite (tileColor_grass _ _ Hgrass).
  exists (shadeChannel 5 7 "#NaNNaNNaN" (Finite (t_height tile * (2 # 5)))).
  assert (interpolateColor "#855a38" "#34a12d"
            (dividedBy (Finite (t_food tile)) DEFAULT_GRASS_FOOD)
          = "#NaNNaNNaN") as ->.
  { pose proof (dividedBy_no_divisor (t_food tile) _ Hdefault) as Hfactor.
    repeat (apply elem_of_cons in Hfactor as [->|Hfactor]; [by vm_compute|]).
    by apply elem_of_nil in Hfactor. }
  unfold shadeColor.
  by rewrite (shadeChannel_NaN 1 3), (shadeChannel_NaN 3 5).
Qed.

Lemma grass_without_default_witness :
  ∃ blue, tileColor NaN (mkTile "GRASS" (1 # 2) 3) = Some ("#ffff" +:+ blue).
Proof. apply grass_without_default; [by left|reflexivity]. Defined.

(** X22. A terrain name that the colour map inherits from
    Object.prototype, such as ["constructor"], is truthy and no string:
    shadeColor throws on it, so drawTerrain ends in an exception and
    paints neither that tile nor any tile after it. *)
Theorem drawTerrain_throws
    (cv : Canvas) (DEFAULT_GRASS_FOOD : JsNumber) (view : View) (s : State)
    (before after : list Tile) (tile : Tile) :
  currentTerrainData s = Some (before ++ tile :: after) →
  t_terrain tile ∈ objectPrototype →
  ∃ painted,
    drawTerrain cv DEFAULT_GRASS_FOOD view s = (painted, true)
    ∧ (length painted ≤ length before)%nat.
Proof.
  intros Htiles Htile. unfold drawTerrain. rewrite Htiles.
  by apply drawTiles_throws.
Qed.

Lemma drawTerrain_throws_witness :
  ∃ painted,
    drawTerrain sampleCanvas (Finite 10) sampleView
      (set_terrain (Some [mkTile "WATER" 0 0; mkTile "constructor" 0 0;
                          mkTile "DIRT" 0 0]) sampleState)
    = (painted, true) ∧ (length painted ≤ 1)%nat.
Proof.
  apply (drawTerrain_throws sampleCanvas (Finite 10) sampleView _
           [mkTile "WATER" 0 0] [mkTile "DIRT" 0 0] (mkTile "constructor" 0 0)).
  - reflexivity.
  - compute_done.
Defined.

Section Tiling.

Variables (cv : Canvas) (DEFAULT_GRASS_FOOD : JsNumber) (view : View).
Hypothesis Hw : 0 < v_w view.
Hypothesis Hh : 0 < v_h view.








End Tiling.



Section Unclamped.

Lemma hexDigits_cons (fuel : nat) : ∀ (n : Z) (acc : string),
  ∃ c rest, hexDigits (S fuel) n acc = String c rest.
Proof.
  induction fuel as [|fuel IH]; intros n acc.
  - cbn. destruct (n <? 16); by eexists _, _.
  - change (hexDigits (S (S fuel)) n acc)
      with (if n <? 16 then String (hexDigit (n mod 16)) acc
            else hexDigits (S fuel) (n / 16) (String (hexDigit (n mod 16)) acc)).
    destruct (n <? 16); [by eexists _, _|]. apply IH.
Qed.

Lemma padStart2_negative (n : Z) :
  n < 0 → ∃ c rest, padStart2 (toString16 n) = String "-" (String c rest).
Proof.
  intros Hn. unfold toString16.
  replace (n <? 0) with true by (symmetry; by apply Z.ltb_lt).
  destruct (hexDigits_cons (Z.to_nat (Z.log2 (- n))) (- n) "") as (c & rest & ->).
  by exists c, rest.
Qed.

Lemma isHexColor_minus (tail : string) :
  isHexColor (String "#" (String "-" tail)) = false.
Proof. by destruct tail as [|? [|? [|? [|? [|? [|? [|? ?]]]]]]]. Qed.

End Unclamped.

(** X24. interpolateColor does not clamp. In the interpolation from the
    dirt colour to the grass colour that drawTerrain makes, a factor of 2
    or more (a grass tile that holds at least twice DEFAULT_GRASS_FOOD)
    makes the red channel negative: the string has a minus sign after the
    [#] and is no colour of six digits. *)
Theorem interpolateColor_not_clamped (factor : Q) :
  (2 <= factor)%Q →
  substringBetween 0 2 (interpolateColor "#855a38" "#34a12d" (Finite factor))
  = "#-"
  ∧ isHexColor (interpolateColor "#855a38" "#34a12d" (Finite factor)) = false.
Proof.
  intros Hf.
  rewrite (interpolateColor_fields "#855a38" "#34a12d" factor
             133 90 56 52 161 45) by done.
  assert (Qfloor (inject_Z 133 * (1 + - factor) + inject_Z 52 * factor + (1 # 2))
          < 0) as Hred.
  { apply Z.le_lt_trans with (Qfloor (- (57 # 2))); [|done].
    apply Qfloor_resp_le.
    change (inject_Z 133) with 133%Q. change (inject_Z 52) with 52%Q. lra. }
  destruct (padStart2_negative _ Hred) as (c & rest & ->).
  split; [done|]. apply isHexColor_minus.
Qed.

Lemma interpolateColor_not_clamped_witness :
  substringBetween 0 2 (interpolateColor "#855a38" "#34a12d" (Finite 2)) = "#-"
  ∧ isHexColor (interpolateColor "#855a38" "#34a12d" (Finite 2)) = false.
Proof. apply interpolateColor_not_clamped. by vm_compute. Defined.
